(** * SLO Burn Lab: the SLO compliance and multi-window burn-rate alerting core

    A shallow embedding of the logic of [src/App.jsx] (the single React
    component [OperationalExcellenceGame]) and the properties its
    specification states about it.

    Conventions of the embedding.
    - A JavaScript number is a value of [JS.num]: a binary64 value, held as
      the rational it denotes, or one of [Infinity], [-Infinity], [NaN].
      Addition, subtraction, multiplication and division round their exact
      result to the nearest binary64 value, ties to even, as IEEE 754
      prescribes (gradual underflow, overflow to an infinity); a decimal
      literal denotes the binary64 value nearest to it.  The sign of zero is
      not represented: the component never divides by a number that may be
      zero without testing it first.  Integers (lengths, clock readings, the
      score, status codes) enter unrounded: they stay below [2 ^ 53].  A
      property stated for every number, or for every value of
      [Math.random()], is stated for every rational; the binary64 values are
      among them.
    - [Date.now()], [Math.random()] and [uuid()] read an explicit [Oracle];
      the functions that call them live in the state monad [M].
    - The React state of the component is the record [State]; a handler is a
      function on it.  Values a render derives from the state take the state
      and the clock reading of that render.
    - Template literals are kept as lists of [part]s: the characters a number
      is printed with are not represented, the number and its format are. *)

From Stdlib Require Import Ascii String QArith Qcanon Qround Qabs Qpower Lqa.
From stdpp Require Import base list strings gmap numbers pretty.

Set Default Proof Using "Type".

(** ** JavaScript numbers *)

Module JS.

Inductive num : Type :=
| Fin (q : Qc)
| PInf
| NInf
| NaN.

Global Instance num_eq_dec : EqDecision num.
Proof. solve_decision. Defined.

(** *** Rounding to binary64 *)

Local Open Scope Q_scope.

(** [floor (log2 q)] for a positive rational. *)
Definition ilog2 (q : Q) : Z :=
  let k := (Z.log2 (Qnum q) - Z.log2 (Z.pos (Qden q)))%Z in
  if Qle_bool (2 ^ k) q then k else (k - 1)%Z.

(** The exponent of the last mantissa bit of the binary64 values around [q]:
    53 bits of precision, and [2 ^ -1074] the smallest positive value. *)
Definition cexp (q : Q) : Z :=
  if Qeq_bool q 0 then (-1074)%Z else Z.max (ilog2 (Qabs q) - 52) (-1074).

(** The nearest integer, a tie going to the even one. *)
Definition rne (m : Q) : Z :=
  let f := Qfloor m in
  match Qcompare (m - inject_Z f) (1 # 2) with
  | Lt => f
  | Gt => (f + 1)%Z
  | Eq => if Z.even f then f else (f + 1)%Z
  end.

(** The nearest multiple of [2 ^ cexp q]. *)
Definition round64 (q : Q) : Q :=
  inject_Z (rne (q / 2 ^ cexp q)) * 2 ^ cexp q.

(** The number an operation returns whose exact result is [q]: [q] rounded
    to nearest, ties to even, and an infinity once that reaches
    [2 ^ 1024]. *)
Definition rnd (q : Q) : num :=
  let r := round64 q in
  if Qle_bool (2 ^ 1024) (Qabs r)
  then (if Qle_bool 0 r then PInf else NInf)
  else Fin (Q2Qc r).

Local Close Scope Q_scope.

(** A decimal literal of the source. *)
Definition lit (q : Q) : num := rnd q.
Arguments lit q%_Q.

(** An integer the component holds as a number: an array length, a clock
    reading, the score or a status code.  They are all below [2 ^ 53] in
    magnitude, where every integer is a binary64 value. *)
Definition of_Z (z : Z) : num := Fin (Qc_of_Z z).
Definition of_nat (n : nat) : num := of_Z (Z.of_nat n).

Definition is_pos (q : Qc) : bool := bool_decide (0 < q)%Qc.
Definition is_neg (q : Qc) : bool := bool_decide (q < 0)%Qc.

Definition neg (x : num) : num :=
  match x with
  | Fin q => Fin (- q)%Qc
  | PInf => NInf
  | NInf => PInf
  | NaN => NaN
  end.

Definition add (x y : num) : num :=
  match x, y with
  | NaN, _ | _, NaN => NaN
  | Fin a, Fin b => rnd (a + b)%Q
  | PInf, NInf | NInf, PInf => NaN
  | PInf, _ | _, PInf => PInf
  | NInf, _ | _, NInf => NInf
  end.

Definition sub (x y : num) : num := add x (neg y).

(** The infinity that carries the sign of [q]; [NaN] at zero. *)
Definition signed_inf (q : Qc) : num :=
  if is_pos q then PInf else if is_neg q then NInf else NaN.

Definition mul (x y : num) : num :=
  match x, y with
  | NaN, _ | _, NaN => NaN
  | Fin a, Fin b => rnd (a * b)%Q
  | PInf, Fin q | Fin q, PInf => signed_inf q
  | NInf, Fin q | Fin q, NInf => neg (signed_inf q)
  | PInf, PInf | NInf, NInf => PInf
  | PInf, NInf | NInf, PInf => NInf
  end.

Definition div (x y : num) : num :=
  match x, y with
  | NaN, _ | _, NaN => NaN
  | Fin a, Fin b =>
      if bool_decide (b = 0%Qc) then signed_inf a else rnd (a / b)%Q
  | Fin _, (PInf | NInf) => Fin 0%Qc
  | PInf, Fin q => if is_neg q then NInf else PInf
  | NInf, Fin q => if is_neg q then PInf else NInf
  | (PInf | NInf), (PInf | NInf) => NaN
  end.

(** [x < y] and [x <= y]; every comparison with [NaN] is false. *)
Definition ltb (x y : num) : bool :=
  match x, y with
  | NaN, _ | _, NaN => false
  | Fin a, Fin b => bool_decide (a < b)%Qc
  | NInf, (Fin _ | PInf) => true
  | Fin _, PInf => true
  | _, _ => false
  end.

Definition leb (x y : num) : bool :=
  match x, y with
  | NaN, _ | _, NaN => false
  | Fin a, Fin b => bool_decide (a ≤ b)%Qc
  | NInf, _ => true
  | _, PInf => true
  | _, _ => false
  end.

Definition gtb (x y : num) : bool := ltb y x.
Definition geb (x y : num) : bool := leb y x.

(** [x === y] on numbers: [NaN] differs from every number. *)
Definition strict_eq (x y : num) : bool :=
  match x, y with
  | NaN, _ | _, NaN => false
  | _, _ => bool_decide (x = y)
  end.

Definition isNaN (x : num) : bool :=
  match x with NaN => true | _ => false end.

Definition isFinite (x : num) : bool :=
  match x with Fin _ => true | _ => false end.

(** ToBoolean on a number: [0] and [NaN] are falsy. *)
Definition truthy (x : num) : bool :=
  match x with
  | Fin q => negb (bool_decide (q = 0%Qc))
  | NaN => false
  | _ => true
  end.

Definition Math_max (x y : num) : num :=
  match x, y with
  | NaN, _ | _, NaN => NaN
  | _, _ => if leb x y then y else x
  end.

Definition Math_min (x y : num) : num :=
  match x, y with
  | NaN, _ | _, NaN => NaN
  | _, _ => if leb x y then x else y
  end.

(** [Math.floor], [Math.ceil] and [Math.round] return integers, which are
    binary64 values when their argument is one. *)
Definition Math_floor (x : num) : num :=
  match x with
  | Fin q => of_Z (Qfloor q)
  | _ => x
  end.

Definition Math_ceil (x : num) : num :=
  match x with
  | Fin q => of_Z (Qceiling q)
  | _ => x
  end.

(** [Math.round] rounds to the nearest integer, halves towards [+Infinity]. *)
Definition Math_round (x : num) : num :=
  match x with
  | Fin q => of_Z (Qfloor (q + Q2Qc (1 # 2))%Qc)
  | _ => x
  end.

End JS.

Export JS.

Declare Scope js_scope.
Delimit Scope js_scope with js.
Bind Scope js_scope with num.
Infix "+" := JS.add : js_scope.
Infix "-" := JS.sub : js_scope.
Infix "*" := JS.mul : js_scope.
Infix "/" := JS.div : js_scope.
Infix "<?" := JS.ltb : js_scope.
Infix "<=?" := JS.leb : js_scope.
Infix ">?" := JS.gtb : js_scope.
Infix ">=?" := JS.geb : js_scope.

Global Arguments JS.add : simpl never.
Global Arguments JS.sub : simpl never.
Global Arguments JS.mul : simpl never.
Global Arguments JS.div : simpl never.
Global Arguments JS.ltb : simpl never.
Global Arguments JS.leb : simpl never.
Global Arguments JS.gtb : simpl never.
Global Arguments JS.geb : simpl never.
Global Arguments JS.rnd : simpl never.
Global Arguments JS.lit : simpl never.
Global Arguments JS.of_Z : simpl never.
Global Arguments JS.of_nat : simpl never.
Global Arguments JS.Math_round : simpl never.
Global Arguments JS.Math_floor : simpl never.
Global Arguments JS.Math_ceil : simpl never.
Global Arguments JS.Math_max : simpl never.
Global Arguments JS.Math_min : simpl never.

(** ** Helpers of the module *)

Definition clamp (n min max : num) : num := Math_max min (Math_min max n).

Definition expectedBadPercent (sloTarget burnThr : num) : num :=
  ((lit 100 - sloTarget) * burnThr)%js.

(** [arr.sort((a, b) => a - b)]: a stable insertion sort; [x] goes before the
    first element [y] with [y - x > 0].  For an array that holds [NaN] the
    comparator is not consistent and the order [Array.prototype.sort] leaves
    is implementation-defined: the order given here is one of those.  The
    latencies the component sorts are finite. *)
Fixpoint sort_insert (x : num) (l : list num) : list num :=
  match l with
  | [] => [x]
  | y :: l' => if (lit 0 <? y - x)%js then x :: l else y :: sort_insert x l'
  end.

Definition sort_numeric (arr : list num) : list num :=
  foldl (λ acc x, sort_insert x acc) [] arr.

(** [percentile(arr, p)], for a finite rank [p] (its one caller passes 95). *)
Definition percentile (arr : list num) (p : Q) : num :=
  if bool_decide (length arr = 0%nat) then NaN
  else
    let sorted := sort_numeric arr in
    let idx := (Math_ceil (lit p / lit 100 * of_nat (length sorted)) - lit 1)%js in
    match clamp idx (lit 0) (of_nat (length sorted) - lit 1)%js with
    | Fin q => default NaN (sorted !! Z.to_nat (Qfloor q))
    | _ => NaN
    end.

(** ** Template literals *)

Inductive part : Type :=
| Txt (s : string)               (* literal text *)
| NumP (x : num)                 (* a number, as [String(x)] prints it *)
| FixedP (x : num) (digits : nat)   (* [x.toFixed(digits)] *)
| BoolP (b : bool).              (* [true] or [false] *)

Global Instance part_eq_dec : EqDecision part.
Proof. solve_decision. Defined.

Definition formatPct (n : num) (digits : nat) : list part :=
  if negb (isFinite n) then [Txt "–"] else [FixedP n digits; Txt "%"].

Definition formatMs (n : num) : list part :=
  if negb (isFinite n) then [Txt "–"] else [NumP (Math_round n); Txt " ms"].

(** ** Constants *)

Inductive Tier : Type := Tier0 | Tier1 | Tier2 | Tier3.

Global Instance Tier_eq_dec : EqDecision Tier.
Proof. solve_decision. Defined.

Record Targets : Type := {
  MTTA_min : num;
  MTTR_min : num;
  MTTC_hours : num;
}.

Record TierInfo : Type := {
  minSLO : num;
  incident : string;
  onCall : string;
  targets : Targets;
}.

(** [TIERS], without the two texts shown on the tier cards ([description] and
    [maxYearlyDowntime]). *)
Definition TIERS (t : Tier) : TierInfo :=
  match t with
  | Tier0 =>
      {| minSLO := lit 99.95; incident := "P-0"; onCall := "24/7 Required";
         targets := {| MTTA_min := lit 5; MTTR_min := lit 60; MTTC_hours := lit 24 |} |}
  | Tier1 =>
      {| minSLO := lit 99.5; incident := "P-1"; onCall := "24/7 Required";
         targets := {| MTTA_min := lit 5; MTTR_min := lit 60; MTTC_hours := lit 24 |} |}
  | Tier2 =>
      {| minSLO := lit 99.0; incident := "P-2"; onCall := "Business Hours Recommended";
         targets := {| MTTA_min := lit 15; MTTR_min := lit 240; MTTC_hours := lit 72 |} |}
  | Tier3 =>
      {| minSLO := lit 98.0; incident := "P-3"; onCall := "Business Hours Recommended";
         targets := {| MTTA_min := lit 60; MTTR_min := (lit 24 * lit 60)%js;
                       MTTC_hours := lit 120 |} |}
  end.

Record Slo : Type := {
  availabilityTarget : num;
  latencyP95Target : num;
}.

Record Sli : Type := {
  sli_availability : bool;
  sli_latencyP95 : bool;
}.

Definition TIER_PRESETS (t : Tier) : Slo :=
  match t with
  | Tier0 => {| availabilityTarget := minSLO (TIERS Tier0); latencyP95Target := lit 500 |}
  | Tier1 => {| availabilityTarget := minSLO (TIERS Tier1); latencyP95Target := lit 800 |}
  | Tier2 => {| availabilityTarget := minSLO (TIERS Tier2); latencyP95Target := lit 1200 |}
  | Tier3 => {| availabilityTarget := minSLO (TIERS Tier3); latencyP95Target := lit 1500 |}
  end.

Definition DEFAULT_SLI : Sli := {| sli_availability := true; sli_latencyP95 := true |}.

Definition DEFAULT_SLO : Slo :=
  {| availabilityTarget := minSLO (TIERS Tier1); latencyP95Target := lit 800 |}.

Inductive Scenario : Type := Calm | K8sNetworkMeltdown | ViralDiscountCode.

(** ** Events, alerts and the state of the component *)

Record Compliance : Type := {
  is_slo_compliant : bool;
  slo_violations : list string;
  slo_thresholds : num;            (* [slo_thresholds.latency_ms] *)
}.

Record Context : Type := {
  user_id : string;
  country_iso_code : string;
  order_number : option string;
  currency_iso_code : string;
  language_iso_code : string;
  page_url : string;
  error_code : option string;
  discount_rate : num;
  channel_type : string;
}.

Record Tracing : Type := {
  trace_id : string;
  session_id : string;
  on_uuid : string;
  request_id : string;
}.

(** The fields an event has before it is classified (the object [base]). *)
Record Base : Type := {
  logger : string;
  flow : string;
  event_type : string;
  is_successful : bool;
  origin_service : string;
  environment : string;
  latency_ms : num;
  status_code : Z;
  ts : Z;
}.

(** [{ ...base, ...compliance, additional_context, tracing_context }] *)
Record Event : Type := {
  base : Base;
  compliance : Compliance;
  additional_context : Context;
  tracing_context : Tracing;
}.

Module NewAlert.
Record t : Type := mk {
  type : string;
  severity : string;
  message : list part;
}.
End NewAlert.

Module Alert.
Record t : Type := mk {
  id : string;
  createdAt : Z;
  type : string;
  severity : string;
  message : list part;
  ackAt : option Z;
  resolvedAt : option Z;
}.
End Alert.

Record State : Type := {
  tier : Tier;
  sli : Sli;
  slo : Slo;
  autoSim : bool;
  scenario : Scenario;
  cpu : num;
  bakeSLI : bool;
  autoTierPresets : bool;
  lockExpected : bool;
  lockedSloTarget : num;
  logs : list Event;
  alerts : list Alert.t;
  score : Z;
  badges : list string;
}.

(** The state of the first render. *)
Definition initial : State :=
  {| tier := Tier1; sli := DEFAULT_SLI; slo := DEFAULT_SLO; autoSim := false;
     scenario := Calm; cpu := lit 22; bakeSLI := true; autoTierPresets := true;
     lockExpected := false; lockedSloTarget := availabilityTarget DEFAULT_SLO;
     logs := []; alerts := []; score := 0; badges := [] |}.

Definition set_slo (v : Slo) (st : State) : State :=
  {| tier := tier st; sli := sli st; slo := v; autoSim := autoSim st;
     scenario := scenario st; cpu := cpu st; bakeSLI := bakeSLI st;
     autoTierPresets := autoTierPresets st; lockExpected := lockExpected st;
     lockedSloTarget := lockedSloTarget st; logs := logs st; alerts := alerts st;
     score := score st; badges := badges st |}.

Definition set_lockExpected (v : bool) (st : State) : State :=
  {| tier := tier st; sli := sli st; slo := slo st; autoSim := autoSim st;
     scenario := scenario st; cpu := cpu st; bakeSLI := bakeSLI st;
     autoTierPresets := autoTierPresets st; lockExpected := v;
     lockedSloTarget := lockedSloTarget st; logs := logs st; alerts := alerts st;
     score := score st; badges := badges st |}.

Definition set_lockedSloTarget (v : num) (st : State) : State :=
  {| tier := tier st; sli := sli st; slo := slo st; autoSim := autoSim st;
     scenario := scenario st; cpu := cpu st; bakeSLI := bakeSLI st;
     autoTierPresets := autoTierPresets st; lockExpected := lockExpected st;
     lockedSloTarget := v; logs := logs st; alerts := alerts st;
     score := score st; badges := badges st |}.

Definition set_logs (v : list Event) (st : State) : State :=
  {| tier := tier st; sli := sli st; slo := slo st; autoSim := autoSim st;
     scenario := scenario st; cpu := cpu st; bakeSLI := bakeSLI st;
     autoTierPresets := autoTierPresets st; lockExpected := lockExpected st;
     lockedSloTarget := lockedSloTarget st; logs := v; alerts := alerts st;
     score := score st; badges := badges st |}.

Definition set_alerts (v : list Alert.t) (st : State) : State :=
  {| tier := tier st; sli := sli st; slo := slo st; autoSim := autoSim st;
     scenario := scenario st; cpu := cpu st; bakeSLI := bakeSLI st;
     autoTierPresets := autoTierPresets st; lockExpected := lockExpected st;
     lockedSloTarget := lockedSloTarget st; logs := logs st; alerts := v;
     score := score st; badges := badges st |}.

Definition set_score (v : Z) (st : State) : State :=
  {| tier := tier st; sli := sli st; slo := slo st; autoSim := autoSim st;
     scenario := scenario st; cpu := cpu st; bakeSLI := bakeSLI st;
     autoTierPresets := autoTierPresets st; lockExpected := lockExpected st;
     lockedSloTarget := lockedSloTarget st; logs := logs st; alerts := alerts st;
     score := v; badges := badges st |}.

Definition set_badges (v : list string) (st : State) : State :=
  {| tier := tier st; sli := sli st; slo := slo st; autoSim := autoSim st;
     scenario := scenario st; cpu := cpu st; bakeSLI := bakeSLI st;
     autoTierPresets := autoTierPresets st; lockExpected := lockExpected st;
     lockedSloTarget := lockedSloTarget st; logs := logs st; alerts := alerts st;
     score := score st; badges := v |}.

Definition set_tier (v : Tier) (st : State) : State :=
  {| tier := v; sli := sli st; slo := slo st; autoSim := autoSim st;
     scenario := scenario st; cpu := cpu st; bakeSLI := bakeSLI st;
     autoTierPresets := autoTierPresets st; lockExpected := lockExpected st;
     lockedSloTarget := lockedSloTarget st; logs := logs st; alerts := alerts st;
     score := score st; badges := badges st |}.

Definition set_cpu (v : num) (st : State) : State :=
  {| tier := tier st; sli := sli st; slo := slo st; autoSim := autoSim st;
     scenario := scenario st; cpu := v; bakeSLI := bakeSLI st;
     autoTierPresets := autoTierPresets st; lockExpected := lockExpected st;
     lockedSloTarget := lockedSloTarget st; logs := logs st; alerts := alerts st;
     score := score st; badges := badges st |}.

Definition set_sli (v : Sli) (st : State) : State :=
  {| tier := tier st; sli := v; slo := slo st; autoSim := autoSim st;
     scenario := scenario st; cpu := cpu st; bakeSLI := bakeSLI st;
     autoTierPresets := autoTierPresets st; lockExpected := lockExpected st;
     lockedSloTarget := lockedSloTarget st; logs := logs st; alerts := alerts st;
     score := score st; badges := badges st |}.

Definition set_autoSim (v : bool) (st : State) : State :=
  {| tier := tier st; sli := sli st; slo := slo st; autoSim := v;
     scenario := scenario st; cpu := cpu st; bakeSLI := bakeSLI st;
     autoTierPresets := autoTierPresets st; lockExpected := lockExpected st;
     lockedSloTarget := lockedSloTarget st; logs := logs st; alerts := alerts st;
     score := score st; badges := badges st |}.

Definition set_scenario (v : Scenario) (st : State) : State :=
  {| tier := tier st; sli := sli st; slo := slo st; autoSim := autoSim st;
     scenario := v; cpu := cpu st; bakeSLI := bakeSLI st;
     autoTierPresets := autoTierPresets st; lockExpected := lockExpected st;
     lockedSloTarget := lockedSloTarget st; logs := logs st; alerts := alerts st;
     score := score st; badges := badges st |}.

Definition set_autoTierPresets (v : bool) (st : State) : State :=
  {| tier := tier st; sli := sli st; slo := slo st; autoSim := autoSim st;
     scenario := scenario st; cpu := cpu st; bakeSLI := bakeSLI st;
     autoTierPresets := v; lockExpected := lockExpected st;
     lockedSloTarget := lockedSloTarget st; logs := logs st; alerts := alerts st;
     score := score st; badges := badges st |}.

Definition set_bakeSLI (v : bool) (st : State) : State :=
  {| tier := tier st; sli := sli st; slo := slo st; autoSim := autoSim st;
     scenario := scenario st; cpu := cpu st; bakeSLI := v;
     autoTierPresets := autoTierPresets st; lockExpected := lockExpected st;
     lockedSloTarget := lockedSloTarget st; logs := logs st; alerts := alerts st;
     score := score st; badges := badges st |}.

(** ** The environment: clock, random numbers, identifiers *)

(** A value [Math.random()] can return: a number in [[0, 1)]. *)
Record unit_interval : Type := {
  unit_val : Qc;
  unit_range : Is_true (bool_decide (0 ≤ unit_val ∧ unit_val < 1)%Qc);
}.

(** What the next calls return: [clock] for [Date.now()] (milliseconds since
    the epoch, a positive integer), [random] for [Math.random()], [ids] for
    [uuid()]; [ticks], [draws] and [issued] count the calls made so far.  The
    string [uuid()] builds is taken from the oracle as a whole: its inner
    reads of the random source and the clock are not counted. *)
Record Oracle : Type := {
  clock : nat → positive;
  ticks : nat;
  random : nat → unit_interval;
  draws : nat;
  ids : nat → string;
  issued : nat;
}.

Definition M (A : Type) : Type := Oracle → A * Oracle.

Global Instance M_ret : MRet M := λ A x o, (x, o).
Global Instance M_bind : MBind M := λ A B f m o, let '(x, o') := m o in f x o'.

Definition Date_now : M Z := λ o,
  (Z.pos (clock o (ticks o)),
   {| clock := clock o; ticks := S (ticks o); random := random o; draws := draws o;
      ids := ids o; issued := issued o |}).

Definition Math_random : M num := λ o,
  (Fin (unit_val (random o (draws o))),
   {| clock := clock o; ticks := ticks o; random := random o; draws := S (draws o);
      ids := ids o; issued := issued o |}).

Definition uuid : M string := λ o,
  (ids o (issued o),
   {| clock := clock o; ticks := ticks o; random := random o; draws := draws o;
      ids := ids o; issued := S (issued o) |}).

(** ** Small pieces of JavaScript the component uses *)

(** [!x] for a field that is [undefined] or a number. *)
Definition unset (o : option Z) : bool :=
  match o with
  | None => true
  | Some z => bool_decide (z = 0%Z)
  end.

(** [o || d] for a field that is [undefined] or a string. *)
Definition or_string (o : option string) (d : string) : string :=
  match o with
  | Some s => if bool_decide (s = "") then d else s
  | None => d
  end.

(** [o || undefined] and [o || null] for such a field. *)
Definition or_absent (o : option string) : option string :=
  match o with
  | Some s => if bool_decide (s = "") then None else Some s
  | None => None
  end.

(** [o || d] for a field that is [undefined] or a number. *)
Definition or_num (o : option num) (d : num) : num :=
  match o with
  | Some x => if truthy x then x else d
  | None => d
  end.

(** [arr.slice(-n)] *)
Definition slice_last {A} (n : nat) (arr : list A) : list A :=
  drop (length arr - n) arr.

(** [arr.splice(0, k)], as it leaves [arr]. *)
Definition splice_front {A} (k : nat) (arr : list A) : list A := drop k arr.

Definition lower (c : Ascii.ascii) : Ascii.ascii :=
  let n := Ascii.nat_of_ascii c in
  if bool_decide (65 ≤ n ≤ 90)%nat then Ascii.ascii_of_nat (n + 32) else c.

Fixpoint toLowerCase (s : string) : string :=
  match s with
  | EmptyString => EmptyString
  | String c s' => String (lower c) (toLowerCase s')
  end.

Definition includes (s sub : string) : bool :=
  match String.index 0 sub s with
  | Some _ => true
  | None => false
  end.

(** The decimal digits of an integer-valued number, as a template literal
    prints the result of [Math.floor]. *)
Definition digits_of (x : num) : string :=
  match x with
  | Fin q => pretty (Qfloor q)
  | PInf => "Infinity"
  | NInf => "-Infinity"
  | NaN => "NaN"
  end.

(** ** Values derived at each render *)

Definition windowMs : Z := 60000.

(** [now] is the reading [Date.now()] gave the render. *)
Definition windowLogs (st : State) (now : Z) : list Event :=
  List.filter (λ l, bool_decide (now - ts (base l) ≤ windowMs)%Z) (logs st).

(** Goodness policy: success AND (if baked) meets the per-request latency
    threshold. *)
Definition goodByPolicy (st : State) (ev : option Event) : bool :=
  match ev with
  | None => false
  | Some ev =>
      if negb (is_successful (base ev)) then false
      else if negb (bakeSLI st) then true
      else
        let threshold := latencyP95Target (slo st) in
        (latency_ms (base ev) <=? threshold)%js
  end.

Definition availability (st : State) (now : Z) : num :=
  let w := windowLogs st now in
  if bool_decide (length w = 0%nat) then NaN
  else
    let ok := length (List.filter (λ l, goodByPolicy st (Some l)) w) in
    (of_nat ok / of_nat (length w) * lit 100)%js.

Definition p95 (st : State) (now : Z) : num :=
  percentile (map (λ l, latency_ms (base l)) (windowLogs st now)) 95.

Definition sloTarget (st : State) : num := availabilityTarget (slo st).

(** Used for the "expected" displays only. *)
Definition expectedSlo (st : State) : num :=
  if lockExpected st then lockedSloTarget st else sloTarget st.

Definition errorBudgetPercent (st : State) : num := (lit 100 - sloTarget st)%js.

Definition observedBadPercent (st : State) (now : Z) : num :=
  if isNaN (availability st now) then lit 0
  else clamp (lit 100 - availability st now)%js (lit 0) (lit 100).

Definition burnRate (st : State) (now : Z) : num :=
  if (errorBudgetPercent st >? lit 0)%js
  then (observedBadPercent st now / errorBudgetPercent st)%js
  else PInf.

(** Helper for the inspector (uses [expectedSlo], which may be locked). *)
Definition expBadPctAt (st : State) (thr : num) : num :=
  expectedBadPercent (expectedSlo st) thr.

(** ** The multi-window, multi-burn-rate configuration *)

Definition DEMO_HOUR_SEC : num := lit 60.
Definition hours (h : num) : num := (h * DEMO_HOUR_SEC)%js.
Definition minutes (m : num) : num := (m / lit 60 * DEMO_HOUR_SEC)%js.
Definition days (d : num) : num := (d * lit 24 * DEMO_HOUR_SEC)%js.

Record Window : Type := {
  long : num;
  short : num;
  thr : num;
  label : string;
}.

Module GOOGLE_MWMB.
Definition pageA : Window :=
  {| long := hours (lit 1); short := minutes (lit 5); thr := lit 14.4;
     label := "Page: 1h & 5m @14.4x" |}.
Definition pageB : Window :=
  {| long := hours (lit 6); short := minutes (lit 30); thr := lit 6;
     label := "Page: 6h & 30m @6x" |}.
Definition ticketA : Window :=
  {| long := hours (lit 24); short := hours (lit 2); thr := lit 3;
     label := "Ticket: 24h & 2h @3x" |}.
Definition ticketB : Window :=
  {| long := days (lit 3); short := hours (lit 6); thr := lit 1;
     label := "Ticket: 3d & 6h @1x" |}.
End GOOGLE_MWMB.

Record BurnStats : Type := {
  total : nat;
  badPct : num;
  burn : num;
}.

(** The body of [burnStats], given the reading [now] of its [Date.now()]. *)
Definition burnStatsAt (st : State) (now : Z) (seconds : num) : BurnStats :=
  let cutoff := (of_Z now - seconds * lit 1000)%js in
  let slice := List.filter (λ l, (of_Z (ts (base l)) >=? cutoff)%js) (logs st) in
  let total := length slice in
  if bool_decide (total = 0%nat) then {| total := 0; badPct := lit 0; burn := lit 0 |}
  else
    let bad := length (List.filter (λ l, negb (goodByPolicy st (Some l))) slice) in
    let badPct := (of_nat bad / of_nat total * lit 100)%js in
    let burn :=
      if (lit 100 - sloTarget st >? lit 0)%js
      then (badPct / (lit 100 - sloTarget st))%js
      else PInf in
    {| total := total; badPct := badPct; burn := burn |}.

Definition burnStats (st : State) (seconds : num) : M BurnStats :=
  now ← Date_now; mret (burnStatsAt st now seconds).

(** ** The alerting engine *)

Record Pair : Type := {
  key : string;
  p_short : num;
  p_long : num;
  p_thr : num;
  p_severity : string;
}.

Definition pairs (st : State) : list Pair :=
  [ {| key := label GOOGLE_MWMB.pageA;
       p_short := short GOOGLE_MWMB.pageA;
       p_long := long GOOGLE_MWMB.pageA;
       p_thr := thr GOOGLE_MWMB.pageA;
       p_severity :=
         if bool_decide (tier st = Tier0) || bool_decide (tier st = Tier1)
         then "P0" else "P1" |};
    {| key := label GOOGLE_MWMB.pageB;
       p_short := short GOOGLE_MWMB.pageB;
       p_long := long GOOGLE_MWMB.pageB;
       p_thr := thr GOOGLE_MWMB.pageB;
       p_severity :=
         if bool_decide (tier st = Tier0) || bool_decide (tier st = Tier1)
         then "P0" else "P1" |};
    {| key := label GOOGLE_MWMB.ticketA;
       p_short := short GOOGLE_MWMB.ticketA;
       p_long := long GOOGLE_MWMB.ticketA;
       p_thr := thr GOOGLE_MWMB.ticketA;
       p_severity := "P2" |};
    {| key := label GOOGLE_MWMB.ticketB;
       p_short := short GOOGLE_MWMB.ticketB;
       p_long := long GOOGLE_MWMB.ticketB;
       p_thr := thr GOOGLE_MWMB.ticketB;
       p_severity := "P2" |} ].

(** The condition of the [if] in the loop over [pairs]. *)
Definition fires (p : Pair) (s l : BurnStats) : bool :=
  (burn s >=? p_thr p)%js && (burn l >=? p_thr p)%js
  && bool_decide (20 < total s)%nat && bool_decide (20 < total l)%nat.

Definition burnAlert (st : State) (p : Pair) (s l : BurnStats) : NewAlert.t :=
  {| NewAlert.type := key p;
     NewAlert.severity := p_severity p;
     NewAlert.message :=
       [ Txt "Burn ≥ "; NumP (p_thr p); Txt "x in short (";
         NumP (Math_round (p_short p)); Txt "s: "; FixedP (burn s) 1;
         Txt "x) AND long ("; NumP (Math_round (p_long p)); Txt "s: ";
         FixedP (burn l) 1; Txt "x) windows (SLI baked="; BoolP (bakeSLI st);
         Txt ")" ] |}.

(** [for (const p of pairs) { ... newAlerts.push(...) }] *)
Fixpoint forPairs (st : State) (ps : list Pair) (newAlerts : list NewAlert.t)
  : M (list NewAlert.t) :=
  match ps with
  | [] => mret newAlerts
  | p :: ps' =>
      s ← burnStats st (p_short p);
      l ← burnStats st (p_long p);
      forPairs st ps'
        (if fires p s l then newAlerts ++ [burnAlert st p s l] else newAlerts)
  end.

Definition promoLastMin (st : State) (now : Z) : nat :=
  length
    (List.filter
       (λ l, bool_decide (event_type (base l) = "add_promo_code")
             && is_successful (base l)
             && (or_num (Some (discount_rate (additional_context l))) (lit 0)
                 >=? lit 0.5)%js)
       (windowLogs st now)).

(** The four "demo" non-burn checks, in the order of the source. *)
Definition demoAlerts (st : State) (now : Z) (newAlerts : list NewAlert.t)
  : list NewAlert.t :=
  let n := length (windowLogs st now) in
  let newAlerts :=
    if sli_availability (sli st) && (availability st now <? sloTarget st)%js
       && bool_decide (50 < n)%nat
    then newAlerts ++
      [ {| NewAlert.type := "SLO Breach (demo)";
           NewAlert.severity :=
             match tier st with
             | Tier0 => "P0" | Tier1 => "P1" | Tier2 => "P2" | Tier3 => "P3"
             end;
           NewAlert.message :=
             [Txt "Availability "] ++ formatPct (availability st now) 2
             ++ [Txt " < SLO "] ++ formatPct (sloTarget st) 2
             ++ [Txt " (non-burn comparison)"] |} ]
    else newAlerts in
  let newAlerts :=
    if sli_latencyP95 (sli st) && (p95 st now >? latencyP95Target (slo st))%js
       && bool_decide (30 < n)%nat
    then newAlerts ++
      [ {| NewAlert.type := "Latency p95 (demo)";
           NewAlert.severity := "P2";
           NewAlert.message :=
             [Txt "p95 "] ++ formatMs (p95 st now) ++ [Txt " > target "]
             ++ formatMs (latencyP95Target (slo st))
             ++ [Txt " (non-burn comparison)"] |} ]
    else newAlerts in
  let newAlerts :=
    if (cpu st >? lit 85)%js && bool_decide (10 < n)%nat
    then newAlerts ++
      [ {| NewAlert.type := "Saturation (demo)";
           NewAlert.severity := "P2";
           NewAlert.message :=
             [Txt "CPU "; FixedP (cpu st) 0;
              Txt "% nearing capacity (non-burn comparison)"] |} ]
    else newAlerts in
  if bool_decide (200 < promoLastMin st now)%nat
  then newAlerts ++
    [ {| NewAlert.type := "Business Metric (demo)";
         NewAlert.severity := "P1";
         NewAlert.message :=
           [Txt "High-rate usage of ≥50% discount (";
            NumP (of_nat (promoLastMin st now));
            Txt " / 60s) (non-burn comparison)"] |} ]
  else newAlerts.

(** The candidates of one pass of [checkAlerts]: the local [newAlerts] when
    the function reaches [if (!newAlerts.length) return]. *)
Definition newAlerts (st : State) (now : Z) : M (list NewAlert.t) :=
  burnAlerts ← forPairs st (pairs st) [];
  mret (demoAlerts st now burnAlerts).

Definition isOpen (a : Alert.t) : bool := unset (Alert.resolvedAt a).

Definition openTypes (prev : list Alert.t) : gset string :=
  list_to_set (map Alert.type (List.filter isOpen prev)).

(** [{ id: uuid(), createdAt: Date.now(), ...a }] *)
Definition stamp (a : NewAlert.t) : M Alert.t :=
  i ← uuid;
  now ← Date_now;
  mret {| Alert.id := i; Alert.createdAt := now;
          Alert.type := NewAlert.type a; Alert.severity := NewAlert.severity a;
          Alert.message := NewAlert.message a;
          Alert.ackAt := None; Alert.resolvedAt := None |}.

Definition toAdd (newAlerts : list NewAlert.t) (prev : list Alert.t)
  : M (list Alert.t) :=
  mapM stamp
    (List.filter (λ a, negb (bool_decide (NewAlert.type a ∈ openTypes prev)))
       newAlerts).

(** [checkAlerts] as the render of [snap] at clock reading [now] closed it,
    its update applied to the state [cur]. *)
Definition checkAlerts (snap : State) (now : Z) (cur : State) : M State :=
  new ← newAlerts snap now;
  if bool_decide (length new = 0%nat) then mret cur
  else
    added ← toAdd new (alerts cur);
    if bool_decide (length added = 0%nat) then mret cur
    else
      let cur :=
        if existsb (λ a, includes (toLowerCase (Alert.type a)) "page") added
        then
          let cur := set_score (score cur + 40)%Z cur in
          if negb (bool_decide ("Signal First" ∈ badges snap))
          then set_badges (badges cur ++ ["Signal First"]) cur
          else cur
        else cur in
      mret (set_alerts (added ++ alerts cur) cur).

(** ** Classification and ingestion of events *)

(** Compute the SLO compliance snapshot for an event. *)
Definition computeSloCompliance (st : State) (b : Base) : Compliance :=
  let violations : list string := [] in
  let violations :=
    if (latency_ms b >? latencyP95Target (slo st))%js
    then violations ++ ["latency"] else violations in
  {| is_slo_compliant := bool_decide (length violations = 0%nat);
     slo_violations := violations;
     slo_thresholds := latencyP95Target (slo st) |}.

(** The argument of [pushManualLog]: every field may be absent. *)
Record Partial : Type := {
  partial_flow : option string;
  partial_event_type : option string;
  partial_is_successful : option bool;
  partial_origin_service : option string;
  partial_environment : option string;
  partial_latency_ms : option num;
  partial_user_id : option string;
  partial_country_iso_code : option string;
  partial_order_number : option string;
  partial_currency_iso_code : option string;
  partial_language_iso_code : option string;
  partial_page_url : option string;
  partial_error_code : option string;
  partial_discount_rate : option num;
  partial_channel_type : option string;
}.

(** [pushManualLog()] and [pushManualLog({})] *)
Definition no_fields : Partial :=
  {| partial_flow := None; partial_event_type := None; partial_is_successful := None;
     partial_origin_service := None; partial_environment := None;
     partial_latency_ms := None; partial_user_id := None;
     partial_country_iso_code := None; partial_order_number := None;
     partial_currency_iso_code := None; partial_language_iso_code := None;
     partial_page_url := None; partial_error_code := None;
     partial_discount_rate := None; partial_channel_type := None |}.

(** The event [pushManualLog] builds: the local [ev]. *)
Definition manualEvent (st : State) (partial : Partial) : M Event :=
  latency ←
    match partial_latency_ms partial with
    | Some x =>
        if truthy x then mret x
        else r ← Math_random; mret (Math_round (lit 100 + r * lit 200)%js)
    | None => r ← Math_random; mret (Math_round (lit 100 + r * lit 200)%js)
    end;
  now ← Date_now;
  let base :=
    {| logger := "business_process_logger";
       flow := or_string (partial_flow partial) "order_to_cash";
       event_type := or_string (partial_event_type partial) "submit_payment";
       is_successful := default true (partial_is_successful partial);
       origin_service := or_string (partial_origin_service partial) "on-frontend";
       environment := or_string (partial_environment partial) "production";
       latency_ms := latency;
       status_code :=
         if bool_decide (partial_is_successful partial = Some false)
         then 500%Z else 200%Z;
       ts := now |} in
  let compliance := computeSloCompliance st base in
  user ←
    match or_absent (partial_user_id partial) with
    | Some s => mret s
    | None =>
        r ← Math_random;
        mret ("user_" +:+ digits_of (Math_floor (r * lit 9999)%js))
    end;
  trace ← uuid;
  r1 ← Math_random;
  r2 ← Math_random;
  request ← uuid;
  mret
    {| base := base;
       compliance := compliance;
       additional_context :=
         {| user_id := user;
            country_iso_code := or_string (partial_country_iso_code partial) "DE";
            order_number := or_absent (partial_order_number partial);
            currency_iso_code := or_string (partial_currency_iso_code partial) "EUR";
            language_iso_code := or_string (partial_language_iso_code partial) "en";
            page_url := or_string (partial_page_url partial) "/checkout";
            error_code := or_absent (partial_error_code partial);
            discount_rate := or_num (partial_discount_rate partial) (lit 0);
            channel_type := or_string (partial_channel_type partial) "web" |};
       tracing_context :=
         {| trace_id := trace;
            session_id := "sess_" +:+ digits_of (Math_floor (r1 * lit 999999)%js);
            on_uuid := "dev_" +:+ digits_of (Math_floor (r2 * lit 999999)%js);
            request_id := request |} |}.

(** [setLogs((l) => [...l, ev].slice(-3000))] *)
Definition appendManual (ev : Event) (l : list Event) : list Event :=
  slice_last 3000 (l ++ [ev]).

(** [pushManualLog(partial)] as the render of [snap] closed it, its update
    applied to the state [cur]. *)
Definition pushManualLog (snap : State) (partial : Partial) (cur : State) : M State :=
  ev ← manualEvent snap partial;
  mret (set_logs (appendManual ev (logs cur)) cur).

(** The update of the simulation tick, for the [batch] the tick generated:
    [next = [...prev, ...batch]; if (next.length > 3000) next.splice(...)]. *)
Definition appendBatch (batch prev : list Event) : list Event :=
  let next := prev ++ batch in
  if bool_decide (3000 < length next)%nat
  then splice_front (length next - 3000) next
  else next.

(** ** Lifecycle of alerts *)

Definition set_ackAt (v : option Z) (a : Alert.t) : Alert.t :=
  {| Alert.id := Alert.id a; Alert.createdAt := Alert.createdAt a;
     Alert.type := Alert.type a; Alert.severity := Alert.severity a;
     Alert.message := Alert.message a; Alert.ackAt := v;
     Alert.resolvedAt := Alert.resolvedAt a |}.

Definition set_resolvedAt (v : option Z) (a : Alert.t) : Alert.t :=
  {| Alert.id := Alert.id a; Alert.createdAt := Alert.createdAt a;
     Alert.type := Alert.type a; Alert.severity := Alert.severity a;
     Alert.message := Alert.message a; Alert.ackAt := Alert.ackAt a;
     Alert.resolvedAt := v |}.

(** [arr.map((a) => (a.id === id && !a.ackAt ? { ...a, ackAt: Date.now() } : a))] *)
Definition ackAll (id : string) (arr : list Alert.t) : M (list Alert.t) :=
  mapM
    (λ a, if bool_decide (Alert.id a = id) && unset (Alert.ackAt a)
          then now ← Date_now; mret (set_ackAt (Some now) a)
          else mret a)
    arr.

Definition resolveAll (id : string) (arr : list Alert.t) : M (list Alert.t) :=
  mapM
    (λ a, if bool_decide (Alert.id a = id) && unset (Alert.resolvedAt a)
          then now ← Date_now; mret (set_resolvedAt (Some now) a)
          else mret a)
    arr.

(** [alerts.find((x) => x.id === id)] *)
Definition findAlert (id : string) (arr : list Alert.t) : option Alert.t :=
  List.find (λ x, bool_decide (Alert.id x = id)) arr.

(** The handler queues the update of the alerts and goes on: when the list
    of its render holds the alert it reads the clock for the bonus, and
    returns.  React runs the queued update, and with it the readings of the
    clock that stamp the alerts, after the handler has returned. *)
Definition ackAlert (snap : State) (id : string) (cur : State) : M State :=
  let t := (MTTA_min (targets (TIERS (tier snap))) * lit 60 * lit 1000)%js in
  bonus ← match findAlert id (alerts snap) return M bool with
          | None => mret false
          | Some a =>
              now ← Date_now;
              mret ((of_Z (now - Alert.createdAt a) <=? t)%js
                    && negb (bool_decide ("First Responder" ∈ badges snap)))
          end;
  arr ← ackAll id (alerts cur);
  let cur := set_alerts arr cur in
  if (bonus : bool)
  then mret (set_score (score cur + 50)%Z
               (set_badges (badges cur ++ ["First Responder"]) cur))
  else mret cur.

Definition resolveAlert (snap : State) (id : string) (cur : State) : M State :=
  let t := (MTTR_min (targets (TIERS (tier snap))) * lit 60 * lit 1000)%js in
  bonus ← match findAlert id (alerts snap) return M bool with
          | None => mret false
          | Some a =>
              now ← Date_now;
              mret ((of_Z (now - Alert.createdAt a) <=? t)%js
                    && negb (bool_decide ("Stability Champion" ∈ badges snap)))
          end;
  arr ← resolveAll id (alerts cur);
  let cur := set_alerts arr cur in
  if (bonus : bool)
  then mret (set_score (score cur + 70)%Z
               (set_badges (badges cur ++ ["Stability Champion"]) cur))
  else mret cur.

Definition resetAll (cur : State) : State :=
  set_cpu (lit 22) (set_badges [] (set_score 0 (set_alerts [] (set_logs [] cur)))).

(** ** Editing the policy *)

(** [onChange] of the availability input; [v] is [Number(e.target.value)]. *)
Definition changeAvailabilityTarget (v : num) (st : State) : State :=
  set_slo {| availabilityTarget := clamp v (lit 90) (lit 100);
             latencyP95Target := latencyP95Target (slo st) |} st.

(** [onChange] of the latency input. *)
Definition changeLatencyTarget (v : num) (st : State) : State :=
  set_slo {| availabilityTarget := availabilityTarget (slo st);
             latencyP95Target := clamp v (lit 50) (lit 5000) |} st.

(** [onChange] of the toggle "Lock expected (MWMB) to current SLO". *)
Definition toggleLockExpected (v : bool) (st : State) : State :=
  let st' := set_lockExpected v st in
  if v then set_lockedSloTarget (sloTarget st) st' else st'.

(** The effect on [[slo.availabilityTarget, lockExpected]]: if not locked,
    track the current SLO. *)
Definition trackLockedTarget (st : State) : State :=
  if negb (lockExpected st) then set_lockedSloTarget (availabilityTarget (slo st)) st
  else st.

(** The effect on [[tier, autoTierPresets]]: overwrite the SLO with the preset
    of the tier. *)
Definition syncTierPresets (st : State) : State :=
  if negb (autoTierPresets st) then st
  else
    let preset := TIER_PRESETS (tier st) in
    if strict_eq (availabilityTarget (slo st)) (availabilityTarget preset)
       && strict_eq (latencyP95Target (slo st)) (latencyP95Target preset)
    then st
    else set_slo {| availabilityTarget := availabilityTarget preset;
                    latencyP95Target := latencyP95Target preset |} st.

(** ** The component as a transition system *)

(** An update of a state variable other than the history and the alerts:
    through a control of the page, by an effect, or by the simulation. *)
Inductive edit : Type :=
| ChangeAvailability (v : num)
| ChangeLatency (v : num)
| ToggleLock (v : bool)
| TrackLock
| SetTier (t : Tier)
| SyncTier
| SetAutoTierPresets (v : bool)
| SetSli (v : Sli)
| SetBake (v : bool)
| SetAutoSim (v : bool)
| SetScenario (v : Scenario)
| SetCpu (v : num)
| GrantBadge (badge : string) (points : Z).

Definition apply_edit (e : edit) (st : State) : State :=
  match e with
  | ChangeAvailability v => changeAvailabilityTarget v st
  | ChangeLatency v => changeLatencyTarget v st
  | ToggleLock v => toggleLockExpected v st
  | TrackLock => trackLockedTarget st
  | SetTier t => set_tier t st
  | SyncTier => syncTierPresets st
  | SetAutoTierPresets v => set_autoTierPresets v st
  | SetSli v => set_sli v st
  | SetBake v => set_bakeSLI v st
  | SetAutoSim v => set_autoSim v st
  | SetScenario v => set_scenario v st
  | SetCpu v => set_cpu v st
  | GrantBadge badge points =>
      set_score (score st + points)%Z (set_badges (badges st ++ [badge]) st)
  end.

(** What can happen to the state.  A handler runs with the state [snap] of
    the render that created it and with the environment [o]. *)
Inductive action : Type :=
| Evaluate (snap : State) (now : Z) (o : Oracle)       (* a pass of [checkAlerts] *)
| Ack (snap : State) (id : string) (o : Oracle)
| Resolve (snap : State) (id : string) (o : Oracle)
| ResetAll
| Push (snap : State) (partial : Partial) (o : Oracle)
| Batch (batch : list Event)                        (* a tick of the simulation *)
| Edit (e : edit).

Definition perform (cur : State) (a : action) : State :=
  match a with
  | Evaluate snap now o => (checkAlerts snap now cur o).1
  | Ack snap id o => (ackAlert snap id cur o).1
  | Resolve snap id o => (resolveAlert snap id cur o).1
  | ResetAll => resetAll cur
  | Push snap partial o => (pushManualLog snap partial cur o).1
  | Batch batch => set_logs (appendBatch batch (logs cur)) cur
  | Edit e => apply_edit e cur
  end.

Definition run (acts : list action) (st : State) : State := foldl perform st acts.

(** ** Definitions used to state the properties *)

(** The event [ev] with other compliance fields. *)
Definition reclassified (c : Compliance) (ev : Event) : Event :=
  {| base := base ev; compliance := c;
     additional_context := additional_context ev;
     tracing_context := tracing_context ev |}.

(** [!partial.latency_ms]: the field is absent, [0] or [NaN]. *)
Definition latency_falsy (partial : Partial) : bool :=
  match partial_latency_ms partial with
  | Some x => negb (truthy x)
  | None => true
  end.

(** The readings [Date.now()] will give from the oracle [o] on: the [k]-th
    next call returns [readings o k]. *)
Definition readings (o : Oracle) (k : nat) : Z := Z.pos (clock o (ticks o + k)).

(** The oracle after [n] more calls of [Date.now()]. *)
Definition tick_by (n : nat) (o : Oracle) : Oracle :=
  {| clock := clock o; ticks := ticks o + n; random := random o; draws := draws o;
     ids := ids o; issued := issued o |}.

(** The oracle the queued update of [ackAlert] and [resolveAlert] starts
    with: the handler has read the clock once when the list of its render
    holds an alert with the identifier, and not at all otherwise. *)
Definition afterHandler (id : string) (snap : State) (o : Oracle) : Oracle :=
  match findAlert id (alerts snap) with
  | Some _ => tick_by 1 o
  | None => o
  end.

(** The oracle after [n] candidates were stamped. *)
Definition after_stamps (n : nat) (o : Oracle) : Oracle :=
  {| clock := clock o; ticks := ticks o + n; random := random o; draws := draws o;
     ids := ids o; issued := issued o + n |}.

(** What the loop over [ps] pushes when the calls of [Date.now()] it makes
    return [clk 0], [clk 1], ... in this order. *)
Fixpoint burnCandidates (st : State) (clk : nat → Z) (ps : list Pair)
  : list NewAlert.t :=
  match ps with
  | [] => []
  | p :: ps' =>
      let s := burnStatsAt st (clk 0%nat) (p_short p) in
      let l := burnStatsAt st (clk 1%nat) (p_long p) in
      (if fires p s l then [burnAlert st p s l] else [])
        ++ burnCandidates st (λ k, clk (2 + k)%nat) ps'
  end.

(** The types of the four demo checks. *)
Definition demoTypes : list string :=
  ["SLO Breach (demo)"; "Latency p95 (demo)"; "Saturation (demo)";
   "Business Metric (demo)"].

(** The candidates of type [ty] among [found]. *)
Definition ofType (ty : string) (found : list NewAlert.t) : list NewAlert.t :=
  List.filter (λ a, bool_decide (NewAlert.type a = ty)) found.

(** The inputs of an evaluation pass that live in the state: two states
    [agree] when they have the same history, targets, [bakeSLI], SLI toggles,
    tier and CPU reading. *)
Definition agree (st1 st2 : State) : Prop :=
  logs st1 = logs st2 ∧ slo st1 = slo st2 ∧ bakeSLI st1 = bakeSLI st2
  ∧ sli st1 = sli st2 ∧ tier st1 = tier st2 ∧ cpu st1 = cpu st2.

(** The shape [ackAll] and [resolveAll] share: every alert that passes [test]
    is replaced by [upd now] of it, [now] a fresh reading of the clock. *)
Definition touchAll (test : Alert.t → bool) (upd : Z → Alert.t → Alert.t)
    (arr : list Alert.t) : M (list Alert.t) :=
  mapM (λ a, if test a then now ← Date_now; mret (upd now a) else mret a) arr.

Definition ackable (id : string) (a : Alert.t) : bool :=
  bool_decide (Alert.id a = id) && unset (Alert.ackAt a).

Definition resolvable (id : string) (a : Alert.t) : bool :=
  bool_decide (Alert.id a = id) && unset (Alert.resolvedAt a).

(** The types of the open alerts of the store, in the order of the store. *)
Definition openTypeList (arr : list Alert.t) : list string :=
  map Alert.type (List.filter isOpen arr).

(** The alerts of type [ty] in the store. *)
Definition recordsOf (ty : string) (arr : list Alert.t) : list Alert.t :=
  List.filter (λ a, bool_decide (Alert.type a = ty)) arr.

(** The candidates no open alert of [prev] suppresses. *)
Definition survivors (new : list NewAlert.t) (prev : list Alert.t) : list NewAlert.t :=
  List.filter (λ a, negb (bool_decide (NewAlert.type a ∈ openTypes prev))) new.

(** The record made of the [j]-th surviving candidate [a] of a pass whose
    stamping starts with the environment [o]. *)
Definition stamped (o : Oracle) (j : nat) (a : NewAlert.t) : Alert.t :=
  {| Alert.id := ids o (issued o + j); Alert.createdAt := readings o j;
     Alert.type := NewAlert.type a; Alert.severity := NewAlert.severity a;
     Alert.message := NewAlert.message a;
     Alert.ackAt := None; Alert.resolvedAt := None |}.

(** Neither a resolve nor a reset. *)
Definition quiet (a : action) : bool :=
  match a with
  | Resolve _ _ _ | ResetAll => false
  | _ => true
  end.

(** ** Sample data *)

(** A request with the given outcome, latency and timestamp. *)
Definition sample_event (ok : bool) (latency : num) (t : Z) : Event :=
  {| base :=
       {| logger := "business_process_logger"; flow := "order_to_cash";
          event_type := "submit_payment"; is_successful := ok;
          origin_service := "on-frontend"; environment := "production";
          latency_ms := latency; status_code := if ok then 200%Z else 500%Z;
          ts := t |};
     compliance :=
       {| is_slo_compliant := true; slo_violations := [];
          slo_thresholds := lit 800 |};
     additional_context :=
       {| user_id := "user_1234"; country_iso_code := "DE"; order_number := None;
          currency_iso_code := "EUR"; language_iso_code := "en";
          page_url := "/checkout"; error_code := None; discount_rate := lit 0;
          channel_type := "web" |};
     tracing_context :=
       {| trace_id := "trace"; session_id := "sess_1"; on_uuid := "dev_1";
          request_id := "request" |} |}.

(** The first state with latency target 200 ms and availability target 99.9. *)
Definition sample_state (baked : bool) : State :=
  set_bakeSLI baked
    (set_slo {| availabilityTarget := lit 99.9; latencyP95Target := lit 200 |}
       initial).

Definition sample_half : unit_interval :=
  {| unit_val := Q2Qc (1 # 2); unit_range := I |}.

(** An environment whose clock starts at [t0] and advances one millisecond
    per reading. *)
Definition sample_oracle (t0 : positive) : Oracle :=
  {| clock := λ k, Pos.pred (t0 + Pos.of_succ_nat k); ticks := 0;
     random := λ _, sample_half; draws := 0;
     ids := λ k, "id" +:+ pretty k; issued := 0 |}.

(** An open, unacknowledged alert. *)
Definition sample_alert (i ty : string) : Alert.t :=
  {| Alert.id := i; Alert.createdAt := 1000; Alert.type := ty;
     Alert.severity := "P2"; Alert.message := [Txt "sample"];
     Alert.ackAt := None; Alert.resolvedAt := None |}.

(** A history of 25 failed requests at time [t], under availability target
    99.9. *)
Definition sample_outage (t : Z) : State :=
  set_logs (replicate 25 (sample_event false (lit 120) t)) (sample_state true).

(** A history of 9 failed and 116 good requests at time [t], under
    availability target 99.5. *)
Definition sample_mixed (t : Z) : State :=
  set_slo {| availabilityTarget := lit 99.5; latencyP95Target := lit 200 |}
    (set_logs (replicate 9 (sample_event false (lit 120) t)
               ++ replicate 116 (sample_event true (lit 120) t))
       (sample_state true)).

(** A rational that is a finite binary64 value. *)
Definition binary64 (q : Q) : Prop :=
  (round64 q == q)%Q ∧ (Qabs q < 2 ^ 1024)%Q.

(** * Properties *)

(** Case analysis on every test of the goal. *)
Ltac case_tests :=
  repeat match goal with |- context [if ?b then _ else _] => destruct b end.

(** A closed rational is a binary64 value, by evaluation. *)
Ltac b64 := split; vm_compute; reflexivity.

(** Two closed expressions denote the same finite number, by evaluation. *)
Ltac num_eq :=
  vm_compute;
  match goal with |- Fin ?a = Fin ?b => apply (f_equal Fin), Qc_is_canon; reflexivity end.

(** ** Numbers *)

Section rounding.
Local Open Scope Q_scope.

(** *** Rounding to the nearest integer *)

Ltac cmp H :=
  first [apply (proj2 (Qeq_alt _ _)) in H
        |apply (proj2 (Qlt_alt _ _)) in H
        |apply (proj2 (Qgt_alt _ _)) in H].


Lemma rne_bounds (m : Q) : (Qfloor m ≤ rne m ≤ Qfloor m + 1)%Z.
Proof. unfold rne. destruct (Qcompare _ _); [destruct (Z.even _)| |]; lia. Qed.

Lemma rne_Z (z : Z) : rne (inject_Z z) = z.
Proof.
  unfold rne. rewrite Qfloor_Z.
  assert (H : Qcompare (inject_Z z - inject_Z z) (1 # 2) = Lt) by (rewrite <- Qlt_alt; lra).
  by rewrite H.
Qed.

Lemma rne_comp (m1 m2 : Q) : m1 == m2 → rne m1 = rne m2.
Proof.
  intros H. unfold rne. rewrite (Qfloor_comp _ _ H).
  assert (Hc : Qcompare (m1 - inject_Z (Qfloor m2)) (1 # 2) = Qcompare (m2 - inject_Z (Qfloor m2)) (1 # 2)).
  { apply Qcompare_comp; [|reflexivity]. by rewrite H. }
  by rewrite Hc.
Qed.

Lemma rne_le (m1 m2 : Q) : m1 <= m2 → (rne m1 ≤ rne m2)%Z.
Proof.
  intros H. assert (Hf := Qfloor_resp_le _ _ H).
  destruct (Z.eq_dec (Qfloor m1) (Qfloor m2)) as [Heq|Hne].
  - unfold rne. rewrite Heq.
    destruct (Qcompare (m1 - inject_Z (Qfloor m2)) (1 # 2)) eqn:H1;
      destruct (Qcompare (m2 - inject_Z (Qfloor m2)) (1 # 2)) eqn:H2;
      cmp H1; cmp H2;
      try (destruct (Z.even _)); try lia; exfalso; lra.
  - assert (H1 := rne_bounds m1). assert (H2 := rne_bounds m2). lia.
Qed.

Lemma floor_opp (m : Q) :
  ¬ m == inject_Z (Qfloor m) → Qfloor (- m) = (- Qfloor m - 1)%Z.
Proof.
  intros Hni. assert (H1 := Qfloor_le m). assert (H2 := Qlt_floor m).
  assert (H3 := Qfloor_le (- m)). assert (H4 := Qlt_floor (- m)).
  rewrite inject_Z_plus in H2, H4. change (inject_Z 1) with 1 in H2, H4.
  assert (Hlt : inject_Z (Qfloor m) < m).
  { destruct (Qlt_le_dec (inject_Z (Qfloor m)) m) as [|Hle]; [done|].
    exfalso. apply Hni. by apply Qle_antisym. }
  assert (Ha : (Qfloor (- m) < - Qfloor m)%Z).
  { rewrite Zlt_Qlt, inject_Z_opp. lra. }
  assert (Hb : (- Qfloor m - 2 < Qfloor (- m))%Z).
  { rewrite Zlt_Qlt. unfold Z.sub. rewrite !inject_Z_plus, !inject_Z_opp.
    change (inject_Z 2) with 2. lra. }
  lia.
Qed.

Lemma rne_opp (m : Q) : rne (- m) = (- rne m)%Z.
Proof.
  destruct (Qeq_dec m (inject_Z (Qfloor m))) as [Hi|Hni].
  - rewrite (rne_comp m _ Hi), rne_Z.
    rewrite (rne_comp (- m) (inject_Z (- Qfloor m))), rne_Z; [done|].
    rewrite inject_Z_opp. by rewrite <- Hi.
  - assert (Hf := floor_opp m Hni).
    assert (H1 := Qfloor_le m). assert (H2 := Qlt_floor m).
    rewrite inject_Z_plus in H2. change (inject_Z 1) with 1 in H2.
    assert (Hlt : inject_Z (Qfloor m) < m).
    { destruct (Qlt_le_dec (inject_Z (Qfloor m)) m) as [|Hle]; [done|].
      exfalso. apply Hni. by apply Qle_antisym. }
    unfold rne. rewrite Hf.
    assert (Hinj : inject_Z (- Qfloor m - 1) == - inject_Z (Qfloor m) - 1).
    { unfold Z.sub. rewrite inject_Z_plus, !inject_Z_opp. reflexivity. }
    assert (Hev : Z.even (- Qfloor m - 1) = negb (Z.even (Qfloor m))).
    { rewrite Z.even_sub, Z.even_opp. by destruct (Z.even _). }
    rewrite Hev.
    destruct (Qcompare (m - inject_Z (Qfloor m)) (1 # 2)) eqn:Hc;
      destruct (Qcompare (- m - inject_Z (- Qfloor m - 1)) (1 # 2)) eqn:Hc';
      cmp Hc; cmp Hc';
      rewrite ?Hinj in Hc'; try (exfalso; lra);
      destruct (Z.even (Qfloor m)); cbn [negb]; lia.
Qed.

Lemma rne_nonneg (m : Q) : 0 <= m → (0 ≤ rne m)%Z.
Proof. intros H. rewrite <- (rne_Z 0). by apply rne_le. Qed.

(** *** Powers of two *)

Lemma pow2_pos (e : Z) : 0 < 2 ^ e.
Proof. by apply Qpower_0_lt. Qed.

Lemma pow2_add (a b : Z) : 2 ^ (a + b) == 2 ^ a * 2 ^ b.
Proof. by apply Qpower_plus. Qed.

Lemma pow2_le (a b : Z) : (a ≤ b)%Z → 2 ^ a <= 2 ^ b.
Proof. intros H. by apply Qpower_le_compat_l. Qed.

Lemma pow2_Z (a : Z) : (0 ≤ a)%Z → inject_Z (2 ^ a) == 2 ^ a.
Proof. intros H. by rewrite Zpower_Qpower. Qed.

Lemma pow2_sub (a b : Z) : 2 ^ (a - b) == 2 ^ a / 2 ^ b.
Proof.
  unfold Z.sub. rewrite pow2_add, Qpower_opp. reflexivity.
Qed.

Lemma div_pow2 (a b : Z) : 2 ^ a / 2 ^ b == 2 ^ (a - b).
Proof. by rewrite pow2_sub. Qed.

(** *** The binade of a positive rational *)

Lemma ilog2_spec (q : Q) : 0 < q → 2 ^ ilog2 q <= q ∧ q < 2 ^ (ilog2 q + 1).
Proof.
  intros Hq. destruct q as [n d]. unfold ilog2. cbn [Qnum Qden].
  assert (Hn : (0 < n)%Z).
  { unfold Qlt in Hq. cbn in Hq. lia. }
  destruct (Z.log2_spec n Hn) as [Ha1 Ha2].
  destruct (Z.log2_spec (Z.pos d) (Pos2Z.is_pos d)) as [Hb1 Hb2].
  set (a := Z.log2 n) in *. set (b := Z.log2 (Z.pos d)) in *.
  assert (Ha0 : (0 ≤ a)%Z) by apply Z.log2_nonneg.
  assert (Hb0 : (0 ≤ b)%Z) by apply Z.log2_nonneg.
  assert (Hnd : n # d == inject_Z n / inject_Z (Z.pos d)) by apply Qmake_Qdiv.
  assert (Hd : 0 < inject_Z (Z.pos d)).
  { change 0 with (inject_Z 0). rewrite <- Zlt_Qlt. lia. }
  assert (Hn1 : 2 ^ a <= inject_Z n) by (rewrite <- pow2_Z, <- Zle_Qle; done).
  assert (Hn2 : inject_Z n < 2 ^ (a + 1)).
  { rewrite <- pow2_Z by lia. rewrite <- Zlt_Qlt. by rewrite <- Z.add_1_r in Ha2. }
  assert (Hd1 : 2 ^ b <= inject_Z (Z.pos d)) by (rewrite <- pow2_Z, <- Zle_Qle; done).
  assert (Hd2 : inject_Z (Z.pos d) < 2 ^ (b + 1)).
  { rewrite <- pow2_Z by lia. rewrite <- Zlt_Qlt. by rewrite <- Z.add_1_r in Hb2. }
  assert (Hup : n # d < 2 ^ (a - b + 1)).
  { rewrite Hnd. apply Qlt_shift_div_r; [done|].
    eapply Qlt_le_trans; [exact Hn2|].
    replace (a + 1)%Z with ((a - b + 1) + b)%Z by lia. rewrite pow2_add.
    apply Qmult_le_l; [apply pow2_pos|done]. }
  assert (Hlow : 2 ^ (a - b - 1) < n # d).
  { rewrite Hnd. apply Qlt_shift_div_l; [done|].
    eapply Qlt_le_trans; [|exact Hn1].
    replace a with ((a - b - 1) + (b + 1))%Z at 2 by lia. rewrite pow2_add.
    apply Qmult_lt_l; [apply pow2_pos|done]. }
  destruct (Qle_bool (2 ^ (a - b)) (n # d)) eqn:Hle.
  - apply Qle_bool_iff in Hle. done.
  - split; [by apply Qlt_le_weak|].
    replace (a - b - 1 + 1)%Z with (a - b)%Z by lia.
    apply Qnot_le_lt. intros H. apply Qle_bool_iff in H. congruence.
Qed.

Lemma ilog2_le (x y : Q) : 0 < x → x <= y → (ilog2 x ≤ ilog2 y)%Z.
Proof.
  intros Hx Hxy.
  destruct (ilog2_spec x Hx) as [Hx1 _].
  destruct (ilog2_spec y) as [_ Hy2]; [by eapply Qlt_le_trans|].
  destruct (Z_lt_le_dec (ilog2 y) (ilog2 x)) as [Hlt|]; [exfalso|done].
  assert (H : 2 ^ (ilog2 y + 1) <= 2 ^ ilog2 x) by (apply pow2_le; lia).
  lra.
Qed.

Lemma ilog2_comp (x y : Q) : 0 < x → x == y → ilog2 x = ilog2 y.
Proof.
  intros Hx Hxy. assert (Hy : 0 < y) by (by rewrite <- Hxy).
  apply Z.le_antisymm; apply ilog2_le; try done.
  - rewrite Hxy. apply Qle_refl.
  - rewrite Hxy. apply Qle_refl.
Qed.

Lemma cexp_pos (x : Q) : 0 < x → cexp x = Z.max (ilog2 x - 52) (-1074).
Proof.
  intros Hx. unfold cexp.
  destruct (Qeq_bool x 0) eqn:H0; [apply Qeq_bool_iff in H0; lra|].
  f_equal. f_equal. apply ilog2_comp.
  - rewrite Qabs_pos; lra.
  - apply Qabs_pos. lra.
Qed.

Lemma cexp_le (x y : Q) : 0 < x → x <= y → (cexp x ≤ cexp y)%Z.
Proof.
  intros Hx Hxy. rewrite !cexp_pos by lra.
  assert (H := ilog2_le x y Hx Hxy). lia.
Qed.

Lemma cexp_comp (x y : Q) : x == y → cexp x = cexp y.
Proof.
  intros Hxy. unfold cexp.
  destruct (Qeq_bool x 0) eqn:Hx, (Qeq_bool y 0) eqn:Hy; try done.
  - apply Qeq_bool_iff in Hx. apply Qeq_bool_neq in Hy. destruct Hy. by rewrite <- Hxy.
  - apply Qeq_bool_iff in Hy. apply Qeq_bool_neq in Hx. destruct Hx. by rewrite Hxy.
  - apply Qeq_bool_neq in Hx. f_equal. f_equal. apply ilog2_comp.
    + apply Qabs_case; intros; lra.
    + by rewrite Hxy.
Qed.

Lemma cexp_opp (x : Q) : cexp (- x) = cexp x.
Proof.
  unfold cexp.
  destruct (Qeq_bool x 0) eqn:Hx, (Qeq_bool (- x) 0) eqn:Hy; try done.
  - apply Qeq_bool_iff in Hx. apply Qeq_bool_neq in Hy. destruct Hy. lra.
  - apply Qeq_bool_iff in Hy. apply Qeq_bool_neq in Hx. destruct Hx. lra.
  - apply Qeq_bool_neq in Hx. f_equal. f_equal. apply ilog2_comp.
    + apply Qabs_case; intros; lra.
    + apply Qabs_opp.
Qed.

(** *** Rounding to binary64 is monotone *)

Global Instance round64_proper : Proper (Qeq ==> Qeq) round64.
Proof.
  intros x y Hxy. unfold round64. rewrite (cexp_comp x y Hxy).
  rewrite (rne_comp (x / 2 ^ cexp y) (y / 2 ^ cexp y)); [reflexivity|].
  by rewrite Hxy.
Qed.

Lemma round64_0 : round64 0 == 0.
Proof. reflexivity. Qed.

Lemma round64_opp (x : Q) : round64 (- x) == - round64 x.
Proof.
  unfold round64. rewrite cexp_opp.
  rewrite (rne_comp (- x / 2 ^ cexp x) (- (x / 2 ^ cexp x))).
  2:{ unfold Qdiv. ring. }
  rewrite rne_opp, inject_Z_opp. ring.
Qed.

Lemma round64_nonneg (x : Q) : 0 <= x → 0 <= round64 x.
Proof.
  intros Hx. unfold round64.
  apply Qmult_le_0_compat; [|apply Qlt_le_weak, pow2_pos].
  change 0 with (inject_Z 0). rewrite <- Zle_Qle. apply rne_nonneg.
  apply Qle_shift_div_l; [apply pow2_pos|]. lra.
Qed.

Lemma round64_le_pos (x y : Q) : 0 < x → x <= y → round64 x <= round64 y.
Proof.
  intros Hx Hxy. assert (Hy : 0 < y) by lra.
  assert (He := cexp_le x y Hx Hxy).
  destruct (Z.eq_dec (cexp x) (cexp y)) as [Heq|Hne].
  - unfold round64. rewrite Heq.
    apply Qmult_le_compat_r; [|apply Qlt_le_weak, pow2_pos].
    rewrite <- Zle_Qle. apply rne_le.
    apply Qmult_le_compat_r; [done|]. apply Qlt_le_weak, Qinv_lt_0_compat, pow2_pos.
  - assert (Hlt : (cexp x < cexp y)%Z) by lia.
    assert (Hcx := cexp_pos x Hx). assert (Hcy := cexp_pos y Hy).
    assert (Hey : cexp y = (ilog2 y - 52)%Z) by lia.
    assert (Hk : (ilog2 x + 1 ≤ ilog2 y)%Z) by lia.
    destruct (ilog2_spec x Hx) as [_ Hx2]. destruct (ilog2_spec y Hy) as [Hy1 _].
    set (k := ilog2 y) in *.
    assert (Hxk : x < 2 ^ k).
    { eapply Qlt_le_trans; [exact Hx2|]. by apply pow2_le. }
    apply (Qle_trans _ (2 ^ k)).
    + (* round64 x <= 2^k *)
      unfold round64. set (e := cexp x).
      assert (Hek : (e < k)%Z) by (unfold e, k; lia).
      assert (Hm : x / 2 ^ e <= inject_Z (2 ^ (k - e))).
      { rewrite pow2_Z by lia. rewrite pow2_sub.
        apply Qmult_le_compat_r; [by apply Qlt_le_weak|].
        apply Qlt_le_weak, Qinv_lt_0_compat, pow2_pos. }
      apply rne_le in Hm. rewrite rne_Z in Hm.
      apply (Qle_trans _ (inject_Z (2 ^ (k - e)) * 2 ^ e)).
      * apply Qmult_le_compat_r; [by rewrite <- Zle_Qle|apply Qlt_le_weak, pow2_pos].
      * rewrite pow2_Z by lia. rewrite <- pow2_add.
        replace (k - e + e)%Z with k by lia. apply Qle_refl.
    + (* 2^k <= round64 y *)
      unfold round64. rewrite Hey.
      assert (Hm : inject_Z (2 ^ 52) <= y / 2 ^ (k - 52)).
      { rewrite pow2_Z by lia. apply Qle_shift_div_l; [apply pow2_pos|].
        rewrite <- pow2_add. replace (52 + (k - 52))%Z with k by lia. done. }
      apply rne_le in Hm. rewrite rne_Z in Hm.
      apply (Qle_trans _ (inject_Z (2 ^ 52) * 2 ^ (k - 52))).
      * rewrite pow2_Z by lia. rewrite <- pow2_add.
        replace (52 + (k - 52))%Z with k by lia. apply Qle_refl.
      * apply Qmult_le_compat_r; [by rewrite <- Zle_Qle|apply Qlt_le_weak, pow2_pos].
Qed.

(** Rounding is monotone. *)
Lemma round64_le (x y : Q) : x <= y → round64 x <= round64 y.
Proof.
  intros Hxy.
  destruct (Qlt_le_dec 0 x) as [Hx|Hx]; [by apply round64_le_pos|].
  destruct (Qlt_le_dec y 0) as [Hy|Hy].
  - assert (H : round64 (- y) <= round64 (- x)) by (apply round64_le_pos; lra).
    rewrite !round64_opp in H. lra.
  - assert (H1 : 0 <= round64 y) by (by apply round64_nonneg).
    assert (H2 : 0 <= round64 (- x)) by (apply round64_nonneg; lra).
    rewrite round64_opp in H2. lra.
Qed.

(** The error of a rounding in the normal range is at most half a unit in
    the last place. *)
Lemma rne_error (m : Q) : Qabs (inject_Z (rne m) - m) <= 1 # 2.
Proof.
  assert (H1 := Qfloor_le m). assert (H2 := Qlt_floor m).
  rewrite inject_Z_plus in H2. change (inject_Z 1) with 1 in H2.
  unfold rne.
  destruct (Qcompare (m - inject_Z (Qfloor m)) (1 # 2)) eqn:Hc; cmp Hc;
    [destruct (Z.even _)| |]; rewrite ?inject_Z_plus; change (inject_Z 1) with 1;
    apply Qabs_case; intros; lra.
Qed.

Lemma round64_error (q : Q) :
  2 ^ (-1022) <= Qabs q → Qabs (round64 q - q) <= Qabs q * 2 ^ (-53).
Proof.
  intros Hn.
  assert (Hpos : 0 < Qabs q) by (eapply Qlt_le_trans; [apply (pow2_pos (-1022))|done]).
  assert (Hne : ¬ q == 0).
  { intros H0. rewrite H0 in Hpos. by apply Qlt_irrefl in Hpos. }
  destruct (ilog2_spec (Qabs q) Hpos) as [Hl1 Hl2].
  assert (Hl : (-1022 ≤ ilog2 (Qabs q))%Z).
  { destruct (Z_lt_le_dec (ilog2 (Qabs q)) (-1022)) as [Hlt|]; [exfalso|done].
    assert (H : 2 ^ (ilog2 (Qabs q) + 1) <= 2 ^ (-1022)) by (apply pow2_le; lia).
    lra. }
  assert (He : cexp q = (ilog2 (Qabs q) - 52)%Z).
  { unfold cexp. destruct (Qeq_bool q 0) eqn:H0; [by apply Qeq_bool_iff in H0|]. lia. }
  unfold round64. rewrite He. set (e := (ilog2 (Qabs q) - 52)%Z).
  assert (Hp := pow2_pos e).
  assert (Herr := rne_error (q / 2 ^ e)).
  assert (Heq : inject_Z (rne (q / 2 ^ e)) * 2 ^ e - q
                == (inject_Z (rne (q / 2 ^ e)) - q / 2 ^ e) * 2 ^ e).
  { field. lra. }
  rewrite Heq, Qabs_Qmult, (Qabs_pos (2 ^ e)) by lra.
  apply (Qle_trans _ ((1 # 2) * 2 ^ e)).
  { apply Qmult_le_compat_r; [done|lra]. }
  apply (Qle_trans _ (2 ^ ilog2 (Qabs q) * 2 ^ (-53))).
  - replace e with (ilog2 (Qabs q) + -53 + 1)%Z by (unfold e; lia).
    rewrite !pow2_add. change (2 ^ 1) with 2. assert (H := pow2_pos (-53)).
    assert (H' := pow2_pos (ilog2 (Qabs q))). nra.
  - apply Qmult_le_compat_r; [done|]. apply Qlt_le_weak, pow2_pos.
Qed.

End rounding.

Section numbers.
Local Open Scope Qc_scope.

Lemma Fin_canon (a b : Qc) : (a == b)%Q → Fin a = Fin b.
Proof. intros H. f_equal. by apply Qc_is_canon. Qed.

Lemma this_Q2Qc (q : Q) : (this (Q2Qc q) == q)%Q.
Proof. simpl. apply Qred_correct. Qed.

Lemma this_of_Z (z : Z) : this (Qc_of_Z z) = inject_Z z.
Proof. reflexivity. Qed.

Lemma of_nat_zero (n : nat) : Qc_of_Z (Z.of_nat n) = 0 ↔ n = 0%nat.
Proof.
  rewrite <- Z2Qc_inj_0, Z2Qc_inj_iff. lia.
Qed.

Lemma leb_Fin (a b : Qc) : (Fin a <=? Fin b)%js = true ↔ a ≤ b.
Proof. unfold leb. by rewrite bool_decide_eq_true. Qed.

Lemma ltb_Fin (a b : Qc) : (Fin a <? Fin b)%js = true ↔ a < b.
Proof. unfold ltb. by rewrite bool_decide_eq_true. Qed.

(** An operation returns a binary64 value or overflows; never [NaN]. *)
Lemma rnd_cases (q : Q) :
  rnd q = PInf ∨ rnd q = NInf ∨ rnd q = Fin (Q2Qc (round64 q)).
Proof. unfold rnd. cbv zeta. case_tests; tauto. Qed.

Lemma rnd_not_NaN (q : Q) : isNaN (rnd q) = false.
Proof. by destruct (rnd_cases q) as [->|[->| ->]]. Qed.

Lemma rnd_proper (q1 q2 : Q) : (q1 == q2)%Q → rnd q1 = rnd q2.
Proof.
  intros H. unfold rnd. cbv zeta. assert (Hr := round64_proper _ _ H).
  rewrite (Qleb_comp _ _ (reflexivity _) _ _ (Qabs_wd _ _ Hr)).
  rewrite (Qleb_comp _ _ (reflexivity 0%Q) _ _ Hr).
  case_tests; try done. apply Fin_canon. by rewrite !this_Q2Qc.
Qed.

(** Rounding does not leave an interval whose ends are binary64 values. *)
Lemma rnd_between (lo hi q : Q) :
  binary64 lo → binary64 hi → (lo <= q)%Q → (q <= hi)%Q →
  ∃ r : Qc, rnd q = Fin r ∧ (r == round64 q)%Q ∧ (lo <= r)%Q ∧ (r <= hi)%Q.
Proof.
  intros [Hlo Hlo'] [Hhi Hhi'] H1 H2.
  assert (Hr1 := round64_le _ _ H1). assert (Hr2 := round64_le _ _ H2).
  rewrite Hlo in Hr1. rewrite Hhi in Hr2.
  exists (Q2Qc (round64 q)). rewrite this_Q2Qc.
  split; [|split; [reflexivity|done]].
  unfold rnd. cbv zeta.
  destruct (Qle_bool _ _) eqn:Hover; [exfalso|done].
  apply Qle_bool_iff in Hover.
  apply Qabs_Qlt_condition in Hlo' as [Hlo' _].
  apply Qabs_Qlt_condition in Hhi' as [_ Hhi'].
  assert (Hlt : (Qabs (round64 q) < 2 ^ 1024)%Q).
  { apply Qabs_Qlt_condition. split; lra. }
  lra.
Qed.

(** A literal that is a binary64 value denotes itself. *)
Lemma lit_binary64 (c : Q) : binary64 c → lit c = Fin (Q2Qc c).
Proof.
  intros Hc. unfold lit.
  destruct (rnd_between c c c Hc Hc) as (r & -> & _ & H1 & H2); [apply Qle_refl..|].
  apply Fin_canon. rewrite this_Q2Qc. by apply Qle_antisym.
Qed.

End numbers.

(** ** Goodness of an event under the policy *)

Lemma goodByPolicy_eq (st : State) (ev : Event) :
  goodByPolicy st (Some ev)
  = is_successful (base ev)
    && (negb (bakeSLI st) || (latency_ms (base ev) <=? latencyP95Target (slo st))%js).
Proof.
  unfold goodByPolicy. by destruct (is_successful _), (bakeSLI st).
Qed.

Lemma goodByPolicy_reclassified (st : State) (c : Compliance) (ev : Event) :
  goodByPolicy st (Some (reclassified c ev)) = goodByPolicy st (Some ev).
Proof. done. Qed.

Lemma filter_map_ext {A B} (f : A → B) (p : B → bool) (q : A → bool) (l : list A) :
  (∀ x, p (f x) = q x) →
  length (List.filter p (map f l)) = length (List.filter q l).
Proof.
  intros H. induction l as [|x l IH]; simpl; [done|].
  rewrite H. destruct (q x); simpl; by rewrite IH.
Qed.

Lemma burnStatsAt_reclassified (st : State) (f : Event → Compliance) now seconds :
  burnStatsAt (set_logs (map (λ ev, reclassified (f ev) ev) (logs st)) st) now seconds
  = burnStatsAt st now seconds.
Proof.
  unfold burnStatsAt.
  change (logs (set_logs ?v st)) with v.
  change (sloTarget (set_logs ?v st)) with (sloTarget st).
  set (inw := λ l : Event, (of_Z (ts (base l)) >=? of_Z now - seconds * lit 1000)%js).
  set (re := λ ev : Event, reclassified (f ev) ev).
  assert (Hfil : List.filter inw (map re (logs st)) = map re (List.filter inw (logs st))).
  { induction (logs st) as [|x l IH]; simpl; [done|].
    change (inw (re x)) with (inw x). destruct (inw x); simpl; by rewrite IH. }
  rewrite Hfil, length_map.
  case_bool_decide; [done|].
  by rewrite (filter_map_ext re _ (λ l, negb (goodByPolicy st (Some l)))).
Qed.

(** C3. For every event and policy, [goodByPolicy] holds exactly when the
    event is successful and either [bakeSLI] is off or its latency is at most
    the current latency target.  With the target at 200, a successful event of
    latency 400 is bad when [bakeSLI] is on and good when it is off, and one of
    latency 100 is good either way.  The verdict reads the current target and
    never the compliance fields frozen in the event: it is the same for any
    value of those fields, also inside the window aggregation, and after the
    latency target is edited it follows the new target. *)
Theorem goodByPolicy_current_policy (st : State) (ev : Event) :
  (goodByPolicy st (Some ev) = true ↔
     is_successful (base ev) = true
     ∧ (bakeSLI st = false
        ∨ (latency_ms (base ev) <=? latencyP95Target (slo st))%js = true))
  ∧ (latencyP95Target (slo st) = lit 200 → is_successful (base ev) = true →
       (latency_ms (base ev) = lit 400 →
          goodByPolicy st (Some ev) = negb (bakeSLI st))
       ∧ (latency_ms (base ev) = lit 100 → goodByPolicy st (Some ev) = true))
  ∧ (∀ c, goodByPolicy st (Some (reclassified c ev)) = goodByPolicy st (Some ev))
  ∧ (∀ f now seconds,
       burnStatsAt (set_logs (map (λ e, reclassified (f e) e) (logs st)) st)
         now seconds
       = burnStatsAt st now seconds)
  ∧ (∀ v, goodByPolicy (changeLatencyTarget v st) (Some ev)
          = is_successful (base ev)
            && (negb (bakeSLI st)
                || (latency_ms (base ev) <=? clamp v (lit 50) (lit 5000))%js)).
Proof.
  split_and!.
  - rewrite goodByPolicy_eq, andb_true_iff, orb_true_iff, negb_true_iff. done.
  - intros Ht Hs. rewrite goodByPolicy_eq, Hs, Ht. split; intros ->.
    + by destruct (bakeSLI st).
    + by destruct (bakeSLI st).
  - intros c. apply goodByPolicy_reclassified.
  - intros. apply burnStatsAt_reclassified.
  - intros v. by rewrite goodByPolicy_eq.
Qed.

Lemma goodByPolicy_current_policy_witness :
  goodByPolicy (sample_state true) (Some (sample_event true (lit 400) 1000)) = false
  ∧ goodByPolicy (sample_state true) (Some (sample_event true (lit 100) 1000)) = true
  ∧ goodByPolicy (sample_state false) (Some (sample_event true (lit 400) 1000)) = true
  ∧ goodByPolicy (sample_state false) (Some (sample_event true (lit 100) 1000)) = true.
Proof.
  pose proof (goodByPolicy_current_policy (sample_state true)
                (sample_event true (lit 400) 1000)) as (_ & Hslow & _).
  pose proof (goodByPolicy_current_policy (sample_state true)
                (sample_event true (lit 100) 1000)) as (_ & Hfast & _).
  pose proof (goodByPolicy_current_policy (sample_state false)
                (sample_event true (lit 400) 1000)) as (_ & Hslow' & _).
  pose proof (goodByPolicy_current_policy (sample_state false)
                (sample_event true (lit 100) 1000)) as (_ & Hfast' & _).
  split_and!.
  - apply (proj1 (Hslow eq_refl eq_refl)). reflexivity.
  - apply (proj2 (Hfast eq_refl eq_refl)). reflexivity.
  - apply (proj1 (Hslow' eq_refl eq_refl)). reflexivity.
  - apply (proj2 (Hfast' eq_refl eq_refl)). reflexivity.
Defined.

(** ** Classification of an event *)

Lemma gtb_Fin (a b : Qc) : (Fin a >? Fin b)%js = true ↔ (b < a)%Qc.
Proof. unfold gtb. apply ltb_Fin. Qed.

(** C5. For every candidate event and policy, the classifier records the
    violation list [["latency"]] exactly when the latency of the event is
    strictly greater than the current latency target and the empty list
    otherwise; [is_slo_compliant] is true exactly when that list is empty.  The
    classifier is a total function of the policy and the candidate, and the
    candidate is found unchanged in the event built from it. *)
Theorem computeSloCompliance_latency (st : State) (b : Base) :
  let c := computeSloCompliance st b in
  slo_violations c
  = (if (latency_ms b >? latencyP95Target (slo st))%js then ["latency"] else [])
  ∧ (slo_violations c = ["latency"] ↔
       (latency_ms b >? latencyP95Target (slo st))%js = true)
  ∧ (is_slo_compliant c = true ↔ slo_violations c = [])
  ∧ (∀ x t : Qc, latency_ms b = Fin x → latencyP95Target (slo st) = Fin t →
       (slo_violations c = ["latency"] ↔ (t < x)%Qc))
  ∧ (∀ partial o,
       let ev := (manualEvent st partial o).1 in
       compliance ev = computeSloCompliance st (base ev)).
Proof.
  unfold computeSloCompliance. cbn [slo_violations is_slo_compliant].
  split_and!.
  - by destruct (_ >? _)%js.
  - by destruct (_ >? _)%js.
  - destruct (_ >? _)%js; vm_compute; split; congruence.
  - intros x t -> ->. rewrite <- gtb_Fin. by destruct (_ >? _)%js.
  - intros partial o. unfold manualEvent.
    destruct (partial_latency_ms partial) as [x|]; [destruct (truthy x)|];
      destruct (or_absent (partial_user_id partial)); reflexivity.
Qed.

Lemma computeSloCompliance_latency_witness :
  slo_violations
    (computeSloCompliance (sample_state true) (base (sample_event true (lit 400) 1000)))
  = ["latency"].
Proof.
  pose proof (computeSloCompliance_latency (sample_state true)
                (base (sample_event true (lit 400) 1000))) as (_ & _ & _ & H & _).
  apply (H (Q2Qc 400) (Q2Qc 200)); [by apply lit_binary64; b64..|reflexivity].
Defined.

(** ** The windowed aggregation *)

Section burnStats.
Local Open Scope Q_scope.

(** The share [bad / total] of a window. *)
Lemma ratio_value (b n : nat) :
  (b ≤ n)%nat → n ≠ 0%nat →
  ∃ r : Qc, (of_nat b / of_nat n)%js = Fin r
            ∧ r == round64 (inject_Z (Z.of_nat b) / inject_Z (Z.of_nat n))
            ∧ 0 <= r ∧ r <= 1.
Proof.
  intros Hb Hn. unfold of_nat, of_Z, div.
  rewrite bool_decide_eq_false_2 by (by rewrite of_nat_zero).
  assert (Hpos : 0 < inject_Z (Z.of_nat n)).
  { change 0 with (inject_Z 0). rewrite <- Zlt_Qlt. lia. }
  assert (Hle : inject_Z (Z.of_nat b) <= inject_Z (Z.of_nat n)).
  { rewrite <- Zle_Qle. lia. }
  assert (H0 : 0 <= inject_Z (Z.of_nat b)).
  { change 0 with (inject_Z 0). rewrite <- Zle_Qle. lia. }
  apply (rnd_between 0 1); [b64|b64| |].
  - apply Qle_shift_div_l; [done|]. lra.
  - apply Qle_shift_div_r; [done|]. lra.
Qed.

(** [(bad / total) * 100] lies between 0 and 100. *)
Lemma percent_value (b n : nat) :
  (b ≤ n)%nat → n ≠ 0%nat →
  ∃ r q : Qc, (of_nat b / of_nat n)%js = Fin r
              ∧ r == round64 (inject_Z (Z.of_nat b) / inject_Z (Z.of_nat n))
              ∧ (of_nat b / of_nat n * lit 100)%js = Fin q
              ∧ q == round64 (r * 100)
              ∧ 0 <= q ∧ q <= 100.
Proof.
  intros Hb Hn. destruct (ratio_value b n Hb Hn) as (r & Hr & Hrv & Hr0 & Hr1).
  exists r. rewrite Hr, (lit_binary64 100) by b64. unfold mul.
  destruct (rnd_between 0 100 (r * Q2Qc 100)) as (q & Hq & Hqv & Hq0 & Hq1);
    [b64|b64|rewrite this_Q2Qc; nra..|].
  exists q. rewrite this_Q2Qc in Hqv. done.
Qed.

(** The two roundings leave the percentage within [2 ^ -51] of
    [100 * bad / total], relatively, for a count below [2 ^ 32]. *)
Lemma percent_error (b n : nat) (q : Qc) :
  (b ≤ n)%nat → n ≠ 0%nat → (Z.of_nat n < 2 ^ 32)%Z →
  (of_nat b / of_nat n * lit 100)%js = Fin q →
  Qabs (q - 100 * inject_Z (Z.of_nat b) / inject_Z (Z.of_nat n))
  <= 100 * inject_Z (Z.of_nat b) / inject_Z (Z.of_nat n) * 2 ^ (-51).
Proof.
  intros Hb Hn H32 Hq.
  destruct (percent_value b n Hb Hn) as (r & q' & Hr & Hrv & Hq' & Hqv & _).
  rewrite Hq' in Hq. injection Hq as ->.
  set (x := inject_Z (Z.of_nat b) / inject_Z (Z.of_nat n)) in *.
  assert (Hpos : 0 < inject_Z (Z.of_nat n)).
  { change 0 with (inject_Z 0). rewrite <- Zlt_Qlt. lia. }
  assert (Hx : 100 * inject_Z (Z.of_nat b) / inject_Z (Z.of_nat n) == 100 * x).
  { unfold x. field. lra. }
  rewrite Hx. clear Hx.
  destruct (Nat.eq_dec b 0%nat) as [->|Hb0].
  - assert (Hx0 : x == 0) by (unfold x; reflexivity).
    rewrite Hqv, Hrv, Hx0. vm_compute. discriminate.
  - assert (Hxlo : 2 ^ (-32) <= x).
    { unfold x. apply Qle_shift_div_l; [done|].
      apply (Qle_trans _ 1).
      - assert (H : inject_Z (Z.of_nat n) <= 2 ^ 32).
        { rewrite <- (pow2_Z 32) by lia. rewrite <- Zle_Qle. lia. }
        assert (Hinv : 2 ^ (-32) * 2 ^ 32 == 1) by reflexivity.
        assert (Hp := pow2_pos (-32)). nra.
      - change 1 with (inject_Z 1). rewrite <- Zle_Qle. lia. }
    assert (Hx1 : x <= 1).
    { unfold x. apply Qle_shift_div_r; [done|]. rewrite Qmult_1_l, <- Zle_Qle. lia. }
    assert (Hnorm : 2 ^ (-1022) <= 2 ^ (-32)) by (apply pow2_le; lia).
    assert (He1 := round64_error x). rewrite Qabs_pos in He1 by lra.
    specialize (He1 ltac:(lra)). rewrite <- Hrv in He1.
    apply Qabs_Qle_condition in He1 as [He1 He1'].
    assert (Hrlo : 2 ^ (-32) <= r).
    { rewrite Hrv. assert (H := round64_le _ _ Hxlo).
      assert (Hb64 : round64 (2 ^ (-32)) == 2 ^ (-32)) by (vm_compute; reflexivity).
      by rewrite Hb64 in H. }
    assert (He2 := round64_error (r * 100)).
    assert (Hp53 : 0 < 2 ^ (-53)) by apply pow2_pos.
    assert (Hp51 : 2 ^ (-51) == 4 * 2 ^ (-53)) by reflexivity.
    assert (Hsmall : 2 ^ (-53) <= 1) by (vm_compute; discriminate).
    rewrite (Qabs_pos (r * 100)) in He2 by nra.
    specialize (He2 ltac:(nra)). rewrite <- Hqv in He2.
    apply Qabs_Qle_condition in He2 as [He2 He2'].
    rewrite Hp51. apply Qabs_Qle_condition. split; nra.
Qed.

Lemma div_not_NaN (q : Qc) (y : num) :
  (y >? lit 0)%js = true → isNaN (Fin q / y)%js = false.
Proof.
  destruct y as [b| | |]; try done.
  rewrite (lit_binary64 0) by b64. unfold gtb. rewrite ltb_Fin. intros Hb. unfold div.
  rewrite bool_decide_eq_false_2; [apply rnd_not_NaN|].
  intros ->. by apply Qclt_not_eq in Hb.
Qed.

End burnStats.

Lemma filter_length_le {A} (p : A → bool) (l : list A) :
  length (List.filter p l) ≤ length l.
Proof. induction l as [|x l IH]; simpl; [done|]. destruct (p x); simpl; lia. Qed.

(** C2. For every history, policy, duration and clock reading, [burnStats]
    returns a record.  When no event of the history falls in the window it is
    exactly [{total: 0, badPct: 0, burn: 0}], whatever the error budget.
    Otherwise [total] is the number of events in the window, [badPct] is
    [(bad / total) * 100] for the number [bad] of events in the window that
    the policy counts as not good, and [burn] is [badPct / (100 - target)] when
    that budget is greater than zero and [Infinity] when it is not, each
    operation rounding to binary64.  In every case [badPct] is a finite number
    between 0 and 100 and [burn] is never [NaN].  For a window of fewer than
    [2 ^ 32] events, the largest a JavaScript array holds, [badPct] is within
    a relative error of [2 ^ -51] of the exact quotient [100 * bad / total]. *)
Theorem burnStats_defined (st : State) (seconds : num) (o : Oracle) :
  let now := Z.pos (clock o (ticks o)) in
  let slice :=
    List.filter (λ l, (of_Z (ts (base l)) >=? of_Z now - seconds * lit 1000)%js)
      (logs st) in
  let bad := length (List.filter (λ l, negb (goodByPolicy st (Some l))) slice) in
  let n := length slice in
  let budget := (lit 100 - availabilityTarget (slo st))%js in
  let r := (burnStats st seconds o).1 in
  r = (if bool_decide (n = 0%nat)
       then {| total := 0; badPct := lit 0; burn := lit 0 |}
       else {| total := n;
               badPct := (of_nat bad / of_nat n * lit 100)%js;
               burn := if (budget >? lit 0)%js
                       then (of_nat bad / of_nat n * lit 100 / budget)%js
                       else PInf |})
  ∧ total r = n
  ∧ (∃ q : Qc, badPct r = Fin q ∧ (0 ≤ q ≤ Qc_of_Z 100)%Qc
       ∧ ((Z.of_nat n < 2 ^ 32)%Z →
          (Qabs (q - 100 * inject_Z (Z.of_nat bad) / inject_Z (Z.of_nat n))
           <= 100 * inject_Z (Z.of_nat bad) / inject_Z (Z.of_nat n) * 2 ^ (-51))%Q))
  ∧ isNaN (burn r) = false.
Proof.
  intros now slice bad n budget r.
  assert (Hr : r = burnStatsAt st now seconds) by done.
  assert (Heq : r = (if bool_decide (n = 0%nat)
       then {| total := 0; badPct := lit 0; burn := lit 0 |}
       else {| total := n;
               badPct := (of_nat bad / of_nat n * lit 100)%js;
               burn := if (budget >? lit 0)%js
                       then (of_nat bad / of_nat n * lit 100 / budget)%js
                       else PInf |})).
  { rewrite Hr. unfold burnStatsAt. fold slice. fold n. fold bad.
    case_bool_decide as Hn; [done|]. done. }
  assert (Hbad : (bad ≤ n)%nat) by apply filter_length_le.
  split; [done|]. rewrite Heq. clear Heq Hr. clearbody budget bad n. clear slice r.
  case_bool_decide as Hn; cbn [total badPct burn].
  - split_and!; [done| |done].
    exists (Q2Qc 0). split; [by apply lit_binary64; b64|]. split; [done|].
    intros _. assert (bad = 0%nat) as -> by lia. rewrite Hn.
    vm_compute. discriminate.
  - destruct (percent_value bad n Hbad Hn) as (x & q & _ & _ & Hq & _ & Hq0 & Hq100).
    split_and!; [done| |].
    + exists q. split; [done|]. split; [done|].
      intros H32. by apply percent_error.
    + destruct (budget >? lit 0)%js eqn:Hb; [|done].
      rewrite Hq. by apply div_not_NaN.
Qed.

Lemma burnStats_defined_witness :
  let r := (burnStats (sample_mixed 1000000) (lit 3600) (sample_oracle 1000000)).1 in
  total r = 125
  ∧ ∃ q : Qc, badPct r = Fin q
              ∧ (Qabs (q - 100 * 9 / 125) <= 100 * 9 / 125 * 2 ^ (-51))%Q.
Proof.
  intros r.
  destruct (burnStats_defined (sample_mixed 1000000) (lit 3600) (sample_oracle 1000000))
    as (_ & Hn & (q & Hq & _ & Herr) & _).
  fold r in Hn, Hq.
  assert (H125 : total r = 125) by (vm_compute; reflexivity).
  split; [exact H125|]. exists q. split; [exact Hq|].
  rewrite <- Hn, H125 in Herr.
  assert (Hbad : length
            (List.filter (λ l, negb (goodByPolicy (sample_mixed 1000000) (Some l)))
               (List.filter
                  (λ l, (of_Z (ts (base l))
                         >=? of_Z (Z.pos (clock (sample_oracle 1000000)
                                            (ticks (sample_oracle 1000000))))
                             - lit 3600 * lit 1000)%js)
                  (logs (sample_mixed 1000000)))) = 9)
    by (vm_compute; reflexivity).
  rewrite Hbad in Herr. apply Herr. vm_compute. reflexivity.
Defined.

(** C2, as the specification states it, fails: [badPct] is not always
    [100 * bad / total].  With nine bad events among 125 under target 99.5,
    [(9 / 125) * 100] is 7.199999999999999 where [100 * 9 / 125] is 7.2, and
    the burn is 14.399999999999999, below the threshold 14.4 that
    [7.2 / (100 - 99.5)] reaches. *)
Lemma badPct_rounds_twice :
  let r := (burnStats (sample_mixed 1000000) (lit 3600) (sample_oracle 1000000)).1 in
  total r = 125
  ∧ badPct r = lit 7.199999999999999
  ∧ (lit 100 * of_nat 9 / of_nat 125)%js = lit 7.2
  ∧ badPct r ≠ (lit 100 * of_nat 9 / of_nat 125)%js
  ∧ burn r = lit 14.399999999999999
  ∧ (lit 100 * of_nat 9 / of_nat 125 / (lit 100 - lit 99.5))%js = lit 14.4
  ∧ (burn r >=? lit 14.4)%js = false
  ∧ (lit 100 * of_nat 9 / of_nat 125 / (lit 100 - lit 99.5) >=? lit 14.4)%js = true.
Proof.
  intros r. subst r.
  split_and!; try num_eq; try (vm_compute; reflexivity).
  intros H.
  apply (f_equal (λ x, match x with Fin q => Qnum (this q) | _ => 0%Z end)) in H.
  vm_compute in H. discriminate.
Qed.

(** ** One evaluation pass, by the clock readings it makes *)

Lemma Date_now_run (o : Oracle) : Date_now o = (readings o 0, tick_by 1 o).
Proof.
  unfold Date_now, readings, tick_by. by rewrite Nat.add_0_r, Nat.add_1_r.
Qed.

Lemma burnStats_run (st : State) (seconds : num) (o : Oracle) :
  burnStats st seconds o = (burnStatsAt st (readings o 0) seconds, tick_by 1 o).
Proof. unfold burnStats, mbind, M_bind. by rewrite Date_now_run. Qed.

Lemma tick_by_tick_by (n m : nat) (o : Oracle) :
  tick_by n (tick_by m o) = tick_by (m + n) o.
Proof. unfold tick_by; simpl. by rewrite Nat.add_assoc. Qed.

Lemma readings_tick_by (n k : nat) (o : Oracle) :
  readings (tick_by n o) k = readings o (n + k).
Proof. unfold readings, tick_by; simpl. by rewrite Nat.add_assoc. Qed.

Lemma burnCandidates_ext (st : State) (clk1 clk2 : nat → Z) (ps : list Pair) :
  (∀ k, k < 2 * length ps → clk1 k = clk2 k) →
  burnCandidates st clk1 ps = burnCandidates st clk2 ps.
Proof.
  revert clk1 clk2. induction ps as [|p ps IH]; intros clk1 clk2 H; simpl; [done|].
  rewrite !H by (simpl; lia). f_equal.
  apply IH. intros k Hk. apply H. simpl. lia.
Qed.

Lemma forPairs_run (st : State) (ps : list Pair) (acc : list NewAlert.t) (o : Oracle) :
  forPairs st ps acc o
  = (acc ++ burnCandidates st (readings o) ps, tick_by (2 * length ps) o).
Proof.
  revert acc o. induction ps as [|p ps IH]; intros acc o; simpl.
  - unfold mret, M_ret, tick_by. rewrite app_nil_r, Nat.add_0_r. by destruct o.
  - unfold mbind, M_bind. rewrite !burnStats_run, IH.
    rewrite !tick_by_tick_by, !readings_tick_by. simpl.
    f_equal; [|f_equal; lia].
    rewrite (burnCandidates_ext st (readings (tick_by 2 o)) (λ k, readings o (2 + k)))
      by (intros; by rewrite readings_tick_by).
    destruct (fires _ _ _); by rewrite <- ?app_assoc.
Qed.

Lemma newAlerts_run (st : State) (now : Z) (o : Oracle) :
  newAlerts st now o
  = (demoAlerts st now (burnCandidates st (readings o) (pairs st)), tick_by 8 o).
Proof. unfold newAlerts, mbind, M_bind. by rewrite forPairs_run. Qed.

(** ** What an evaluation pass reads *)

Lemma goodByPolicy_ext (st1 st2 : State) (ev : option Event) :
  slo st1 = slo st2 → bakeSLI st1 = bakeSLI st2 →
  goodByPolicy st1 ev = goodByPolicy st2 ev.
Proof. intros H1 H2. unfold goodByPolicy. by rewrite H1, H2. Qed.

Lemma goodByPolicy_fun_ext (st1 st2 : State) :
  slo st1 = slo st2 → bakeSLI st1 = bakeSLI st2 →
  goodByPolicy st1 = goodByPolicy st2.
Proof.
  intros H1 H2. unfold goodByPolicy. by rewrite H1, H2.
Qed.

Lemma burnStatsAt_ext (st1 st2 : State) (now : Z) (seconds : num) :
  logs st1 = logs st2 → slo st1 = slo st2 → bakeSLI st1 = bakeSLI st2 →
  burnStatsAt st1 now seconds = burnStatsAt st2 now seconds.
Proof.
  intros H1 H2 H3. unfold burnStatsAt, sloTarget.
  by rewrite (goodByPolicy_fun_ext st1 st2), H1, H2.
Qed.

Lemma agree_burnCandidates (st1 st2 : State) (clk : nat → Z) :
  agree st1 st2 →
  burnCandidates st1 clk (pairs st1) = burnCandidates st2 clk (pairs st2).
Proof.
  intros (Hl & Hs & Hb & _ & Ht & _).
  assert (Hps : pairs st1 = pairs st2) by (unfold pairs; by rewrite Ht).
  rewrite Hps. generalize (pairs st2). intros ps.
  revert clk. induction ps as [|p ps IH]; intros clk; simpl; [done|].
  rewrite !(burnStatsAt_ext st1 st2) by done.
  unfold burnAlert. by rewrite Hb, IH.
Qed.

Lemma agree_demoAlerts (st1 st2 : State) (now : Z) (acc : list NewAlert.t) :
  agree st1 st2 → demoAlerts st1 now acc = demoAlerts st2 now acc.
Proof.
  intros (Hl & Hs & Hb & Hi & Ht & Hc).
  unfold demoAlerts, promoLastMin, p95, availability, sloTarget, windowLogs.
  by rewrite (goodByPolicy_fun_ext st1 st2), Hl, Hs, Hi, Ht, Hc.
Qed.

Lemma agree_newAlerts (st1 st2 : State) (now : Z) (o1 o2 : Oracle) :
  agree st1 st2 →
  (∀ k, k < 8 → readings o1 k = readings o2 k) →
  (newAlerts st1 now o1).1 = (newAlerts st2 now o2).1.
Proof.
  intros Hst Hclk. rewrite !newAlerts_run. cbn [fst].
  rewrite (agree_demoAlerts st1 st2) by done.
  rewrite (agree_burnCandidates st1 st2) by done.
  by rewrite (burnCandidates_ext st2 (readings o1) (readings o2)).
Qed.

(** ** The expected bad percentage *)

Lemma agree_lock (b : bool) (x : num) (st : State) :
  agree (set_lockExpected b (set_lockedSloTarget x st)) st.
Proof. by repeat split. Qed.

Lemma checkAlerts_newAlerts (snap1 snap2 cur : State) (now : Z) (o : Oracle) :
  (newAlerts snap1 now o) = (newAlerts snap2 now o) →
  badges snap1 = badges snap2 →
  checkAlerts snap1 now cur o = checkAlerts snap2 now cur o.
Proof.
  intros Hn Hb. unfold checkAlerts, mbind, M_bind. by rewrite Hn, Hb.
Qed.

(** C6. [expectedBadPercent(target, multiplier)] is
    [(100 - target) * multiplier], the subtraction and the product rounding
    to binary64.  At target 99.9 and multiplier 14.4 it is
    1.4399999999999182, which is not the number 1.44 but lies within [1e-9]
    of it, the tolerance of the specification and of the self-test of the
    component.  The inspector evaluates it at [lockedSloTarget] when
    [lockExpected] is on and at the live availability target when it is off:
    while the lock is on, editing the availability target, by hand or through
    the preset of a tier, leaves the result as it was; after the lock is
    switched off the result is that of the live target, and follows a later
    edit of it.  The candidates of an evaluation pass, and the state a pass
    leaves, are the same whatever [lockExpected] and [lockedSloTarget]
    hold. *)
Theorem expectedBadPercent_locked (st : State) (thr : num) :
  (∀ target multiplier,
     expectedBadPercent target multiplier = ((lit 100 - target) * multiplier)%js)
  ∧ expectedBadPercent (lit 99.9) (lit 14.4) = lit 1.4399999999999182
  ∧ (∃ q : Qc, expectedBadPercent (lit 99.9) (lit 14.4) = Fin q
               ∧ (Qabs (q - 1.44) < 1 # 1000000000)%Q)
  ∧ expBadPctAt st thr
    = expectedBadPercent
        (if lockExpected st then lockedSloTarget st else availabilityTarget (slo st))
        thr
  ∧ (lockExpected st = true →
       (∀ v, expBadPctAt (trackLockedTarget (changeAvailabilityTarget v st)) thr
             = expBadPctAt st thr)
       ∧ (∀ t, expBadPctAt (trackLockedTarget (syncTierPresets (set_tier t st))) thr
               = expBadPctAt st thr))
  ∧ (let st' := trackLockedTarget (toggleLockExpected false st) in
     expBadPctAt st' thr = expectedBadPercent (availabilityTarget (slo st)) thr
     ∧ ∀ v, expBadPctAt (trackLockedTarget (changeAvailabilityTarget v st')) thr
            = expectedBadPercent (clamp v (lit 90) (lit 100)) thr)
  ∧ (∀ b x now o,
       newAlerts (set_lockExpected b (set_lockedSloTarget x st)) now o
       = newAlerts st now o)
  ∧ (∀ b x now cur o,
       checkAlerts (set_lockExpected b (set_lockedSloTarget x st)) now cur o
       = checkAlerts st now cur o).
Proof.
  assert (Hnew : ∀ b x now o,
       newAlerts (set_lockExpected b (set_lockedSloTarget x st)) now o
       = newAlerts st now o).
  { intros b x now o. rewrite !newAlerts_run.
    pose proof (agree_lock b x st) as Ha.
    rewrite (agree_demoAlerts _ st) by done.
    by rewrite (agree_burnCandidates _ st). }
  split_and!.
  - done.
  - num_eq.
  - eexists. split; [vm_compute; reflexivity|]. vm_compute. reflexivity.
  - done.
  - intros Hlock. split.
    + intros v.
      unfold expBadPctAt, expectedSlo, trackLockedTarget, changeAvailabilityTarget.
      unfold set_slo, set_lockedSloTarget, sloTarget.
      cbn [lockExpected lockedSloTarget slo availabilityTarget].
      rewrite Hlock. cbn [negb lockExpected lockedSloTarget]. done.
    + intros t.
      assert (Hsync : lockExpected (syncTierPresets (set_tier t st)) = true
                      ∧ lockedSloTarget (syncTierPresets (set_tier t st))
                        = lockedSloTarget st).
      { unfold syncTierPresets. repeat case_match; done. }
      destruct Hsync as [Hl1 Hl2].
      unfold expBadPctAt, expectedSlo, trackLockedTarget.
      rewrite Hl1. cbn [negb]. by rewrite Hl1, Hl2, Hlock.
  - split; [reflexivity|]. intros v. reflexivity.
  - exact Hnew.
  - intros b x now cur o. apply checkAlerts_newAlerts; [apply Hnew|reflexivity].
Qed.

Lemma expectedBadPercent_locked_witness :
  let st := toggleLockExpected true (sample_state true) in
  expBadPctAt (trackLockedTarget (changeAvailabilityTarget (lit 99.5) st)) (lit 14.4)
  = expBadPctAt st (lit 14.4).
Proof.
  intros st.
  pose proof (expectedBadPercent_locked st (lit 14.4)) as (_ & _ & _ & _ & H & _).
  apply (proj1 (H eq_refl)).
Defined.

(** C6, as the specification states it, fails in one point: at target 99.9
    and multiplier 14.4 the product is not 1.44, the difference [100 - 99.9]
    being 0.09999999999999432 in binary64. *)
Lemma expectedBadPercent_not_exact :
  (lit 100 - lit 99.9)%js = lit 0.09999999999999432
  ∧ expectedBadPercent (lit 99.9) (lit 14.4) = lit 1.4399999999999182
  ∧ expectedBadPercent (lit 99.9) (lit 14.4) ≠ lit 1.44.
Proof.
  split_and!; try num_eq.
  intros H.
  apply (f_equal (λ x, match x with Fin q => Qnum (this q) | _ => 0%Z end)) in H.
  vm_compute in H. discriminate.
Qed.

(** ** The bounded history *)

Lemma slice_last_spec {A} (n : nat) (arr : list A) :
  length (slice_last n arr) ≤ n
  ∧ ∃ evicted, arr = evicted ++ slice_last n arr
               ∧ length evicted = length arr - n.
Proof.
  unfold slice_last. split.
  - rewrite length_drop. lia.
  - exists (take (length arr - n) arr). split.
    + by rewrite take_drop.
    + rewrite length_take. lia.
Qed.

Lemma appendBatch_slice_last (batch prev : list Event) :
  appendBatch batch prev = slice_last 3000 (prev ++ batch).
Proof.
  unfold appendBatch, splice_front, slice_last.
  case_bool_decide as H; [done|].
  replace (length (prev ++ batch) - 3000) with 0 by lia. done.
Qed.

Lemma pushManualLog_logs (snap : State) (partial : Partial) (cur : State) (o : Oracle) :
  logs (pushManualLog snap partial cur o).1
  = appendManual (manualEvent snap partial o).1 (logs cur).
Proof.
  unfold pushManualLog, mbind, M_bind. by destruct (manualEvent snap partial o).
Qed.

(** C8. After the append of a simulation batch, and after a manual push, the
    history holds at most 3000 events.  What is kept is the end of the old
    history followed by the new events: the events dropped are the oldest
    ones, exactly as many as exceed 3000, and the events kept are the same
    events in the same order. *)
Theorem history_bounded (prev batch : list Event) (ev : Event) :
  (length (appendBatch batch prev) ≤ 3000
   ∧ ∃ evicted, prev ++ batch = evicted ++ appendBatch batch prev
                ∧ length evicted = length (prev ++ batch) - 3000)
  ∧ (length (appendManual ev prev) ≤ 3000
     ∧ ∃ evicted, prev ++ [ev] = evicted ++ appendManual ev prev
                  ∧ length evicted = length (prev ++ [ev]) - 3000)
  ∧ (∀ snap partial cur o,
       let st' := (pushManualLog snap partial cur o).1 in
       logs st' = appendManual (manualEvent snap partial o).1 (logs cur)
       ∧ length (logs st') ≤ 3000).
Proof.
  split; [|split].
  - rewrite appendBatch_slice_last. apply slice_last_spec.
  - apply slice_last_spec.
  - intros snap partial cur o st'. subst st'. rewrite pushManualLog_logs.
    split; [done|]. apply slice_last_spec.
Qed.

(** Below the ceiling nothing is dropped; above it the oldest event goes. *)
Example history_bounded_examples (a b c : Event) :
  appendBatch [b; c] [a] = [a; b; c]
  ∧ appendManual c [a; b] = [a; b; c]
  ∧ appendManual c (replicate 2999 a ++ [b]) = replicate 2998 a ++ [b; c]
  ∧ appendBatch [b; c] (replicate 2999 a) = replicate 2998 a ++ [b; c].
Proof.
  split_and!; reflexivity.
Qed.

(** ** Manual ingestion *)

Lemma round_unit_range (u : unit_interval) :
  ∃ n : Z, Math_round (lit 100 + Fin (unit_val u) * lit 200)%js = of_Z n
           ∧ (100 ≤ n ≤ 300)%Z.
Proof.
  destruct u as [r Hr]. cbn [unit_val].
  apply bool_decide_unpack in Hr as [H0 H1].
  unfold Qcle, Qclt in H0, H1. simpl in H0, H1.
  change (Qred 0) with 0%Q in H0. change (Qred 1) with 1%Q in H1.
  rewrite (lit_binary64 100), (lit_binary64 200) by b64. unfold mul.
  destruct (rnd_between 0 200 (r * Q2Qc 200)) as (x & -> & _ & Hx0 & Hx200);
    [b64|b64|rewrite this_Q2Qc; nra..|].
  unfold add.
  destruct (rnd_between 100 300 (Q2Qc 100 + x)) as (y & -> & _ & Hy0 & Hy300);
    [b64|b64|rewrite this_Q2Qc; lra..|].
  unfold Math_round. eexists. split; [done|].
  set (z := this _).
  assert (Hz : (z == y + (1 # 2))%Q).
  { subst z. simpl. rewrite !Qred_correct. reflexivity. }
  split.
  - rewrite <- (Qfloor_Z 100). apply Qfloor_resp_le. rewrite Hz.
    change (inject_Z 100) with 100%Q. lra.
  - assert (Hlt : (Qfloor z < 301)%Z); [|lia].
    rewrite Zlt_Qlt. eapply Qle_lt_trans; [apply Qfloor_le|]. rewrite Hz.
    change (inject_Z 301) with 301%Q. lra.
Qed.

(** The roundings of the sum are felt: for the draw 0.0024999999999999996
    the sum [100 + r * 200] is 100.5 in binary64 and the latency is 101,
    where the sum of the two decimals stays below 100.5. *)
Example manual_latency_rounds :
  (lit 100 + lit 0.0024999999999999996 * lit 200)%js = lit 100.5
  ∧ Math_round (lit 100 + lit 0.0024999999999999996 * lit 200)%js = of_Z 101
  ∧ (100 + 0.0024999999999999996 * 200 < 100.5)%Q.
Proof. split_and!; [num_eq|num_eq|reflexivity]. Qed.

Lemma manualEvent_latency (snap : State) (partial : Partial) (o : Oracle) :
  latency_ms (base (manualEvent snap partial o).1)
  = match partial_latency_ms partial with
    | Some x =>
        if truthy x then x
        else Math_round (lit 100 + Fin (unit_val (random o (draws o))) * lit 200)%js
    | None => Math_round (lit 100 + Fin (unit_val (random o (draws o))) * lit 200)%js
    end.
Proof.
  unfold manualEvent.
  destruct (partial_latency_ms partial) as [x|]; [destruct (truthy x)|];
    destruct (or_absent (partial_user_id partial)); reflexivity.
Qed.

Lemma last_appendManual (ev : Event) (l : list Event) :
  last (appendManual ev l) = Some ev.
Proof.
  unfold appendManual, slice_last.
  rewrite drop_app_le by (rewrite length_app; simpl; lia).
  apply last_snoc.
Qed.

Lemma of_Z_not_zero (n : Z) : (100 ≤ n)%Z → of_Z n ≠ lit 0.
Proof.
  intros Hn Heq. rewrite (lit_binary64 0) in Heq by b64. unfold of_Z in Heq.
  assert (H0 : Qc_of_Z n = Qc_of_Z 0).
  { injection Heq as Heq. by apply Qc_is_canon; rewrite Heq. }
  apply Z2Qc_inj in H0. lia.
Qed.

(** C10. The event a manual push creates never has latency 0.  When the
    [latency_ms] field of the argument is absent, [0] or [NaN], the latency of
    the event is [Math.round(100 + Math.random() * 200)], an integer between
    100 and 300; otherwise it is the field as given, which is then not 0.  The
    event is the newest entry of the history the push leaves. *)
Theorem manual_latency_never_zero (snap : State) (partial : Partial) (o : Oracle) :
  let ev := (manualEvent snap partial o).1 in
  (latency_falsy partial = true →
     latency_ms (base ev)
     = Math_round (lit 100 + Fin (unit_val (random o (draws o))) * lit 200)%js
     ∧ ∃ n : Z, latency_ms (base ev) = of_Z n ∧ (100 ≤ n ≤ 300)%Z)
  ∧ (latency_falsy partial = false →
       partial_latency_ms partial = Some (latency_ms (base ev)))
  ∧ latency_ms (base ev) ≠ lit 0
  ∧ (∀ cur, last (logs (pushManualLog snap partial cur o).1) = Some ev).
Proof.
  intros ev. subst ev.
  assert (Hfalsy : latency_falsy partial = true →
     latency_ms (base (manualEvent snap partial o).1)
     = Math_round (lit 100 + Fin (unit_val (random o (draws o))) * lit 200)%js).
  { rewrite manualEvent_latency. unfold latency_falsy.
    destruct (partial_latency_ms partial) as [x|]; [|done].
    by destruct (truthy x). }
  assert (Htruthy : latency_falsy partial = false →
     partial_latency_ms partial = Some (latency_ms (base (manualEvent snap partial o).1))
     ∧ truthy (latency_ms (base (manualEvent snap partial o).1)) = true).
  { rewrite manualEvent_latency. unfold latency_falsy.
    destruct (partial_latency_ms partial) as [x|]; [|done].
    by destruct (truthy x) eqn:Hx. }
  split_and!.
  - intros H. split; [by apply Hfalsy|]. rewrite (Hfalsy H). apply round_unit_range.
  - intros H. by apply Htruthy.
  - destruct (latency_falsy partial) eqn:H.
    + rewrite (Hfalsy eq_refl).
      destruct (round_unit_range (random o (draws o))) as (n & -> & Hn).
      apply of_Z_not_zero. lia.
    + destruct (Htruthy eq_refl) as [_ Ht]. intros Heq. rewrite Heq in Ht. done.
  - intros cur. rewrite pushManualLog_logs. apply last_appendManual.
Qed.

Lemma manual_latency_never_zero_witness :
  let partial :=
    {| partial_flow := None; partial_event_type := None; partial_is_successful := None;
       partial_origin_service := None; partial_environment := None;
       partial_latency_ms := Some (lit 0); partial_user_id := None;
       partial_country_iso_code := None; partial_order_number := None;
       partial_currency_iso_code := None; partial_language_iso_code := None;
       partial_page_url := None; partial_error_code := None;
       partial_discount_rate := None; partial_channel_type := None |} in
  ∃ n : Z,
    latency_ms (base (manualEvent (sample_state true) partial (sample_oracle 1000)).1)
    = of_Z n ∧ (100 ≤ n ≤ 300)%Z.
Proof.
  intros partial.
  pose proof (manual_latency_never_zero (sample_state true) partial (sample_oracle 1000))
    as (H & _).
  apply (H eq_refl).
Defined.

(** ** Acknowledging and resolving *)

Section touchAll.
Context (test : Alert.t → bool) (upd : Z → Alert.t → Alert.t).

Lemma touchAll_cons (a : Alert.t) (arr : list Alert.t) (o : Oracle) :
  touchAll test upd (a :: arr) o
  = if test a
    then (upd (readings o 0) a :: (touchAll test upd arr (tick_by 1 o)).1,
          (touchAll test upd arr (tick_by 1 o)).2)
    else (a :: (touchAll test upd arr o).1, (touchAll test upd arr o).2).
Proof.
  unfold touchAll. cbn [mapM]. unfold mbind, M_bind, mret, M_ret.
  destruct (test a).
  - rewrite Date_now_run. by case_match.
  - by case_match.
Qed.

(** Alert by alert: one that passes [test] is updated with a reading of the
    clock, every other one is left as it is. *)
Lemma touchAll_pointwise (arr : list Alert.t) (o : Oracle) :
  Forall2
    (λ a a', if test a then ∃ k, a' = upd (readings o k) a else a' = a)
    arr (touchAll test upd arr o).1.
Proof.
  revert o. induction arr as [|a arr IH]; intros o; [by constructor|].
  rewrite touchAll_cons. destruct (test a) eqn:Ha; cbn [fst].
  - constructor; [rewrite Ha; by exists 0|].
    eapply Forall2_impl; [apply IH|]. intros x y Hxy. cbn beta in Hxy.
    destruct (test x); [|done].
    destruct Hxy as [k ->]. exists (1 + k). by rewrite readings_tick_by.
  - constructor; [by rewrite Ha|]. apply IH.
Qed.

Lemma touchAll_noop (arr : list Alert.t) (o : Oracle) :
  (∀ a, a ∈ arr → test a = false) → (touchAll test upd arr o).1 = arr.
Proof.
  revert o. induction arr as [|a arr IH]; intros o H; [done|].
  rewrite touchAll_cons, (H a) by left. cbn [fst].
  rewrite IH; [done|]. intros x Hx. apply H. by right.
Qed.

Lemma touchAll_idempotent (arr : list Alert.t) (o o' : Oracle) :
  (∀ z a, (0 < z)%Z → test (upd z a) = false) →
  (touchAll test upd (touchAll test upd arr o).1 o').1 = (touchAll test upd arr o).1.
Proof.
  intros Hupd. apply touchAll_noop. intros a' Ha'.
  pose proof (touchAll_pointwise arr o) as HF.
  apply list_elem_of_lookup in Ha' as [i Hi].
  destruct (Forall2_lookup_r _ _ _ _ _ HF Hi) as (a & _ & Haa').
  cbn beta in Haa'. destruct (test a) eqn:Ha; [|by subst].
  destruct Haa' as [k ->]. by apply Hupd.
Qed.

End touchAll.

Lemma ackable_set_ackAt (id : string) (z : Z) (a : Alert.t) :
  (0 < z)%Z → ackable id (set_ackAt (Some z) a) = false.
Proof.
  intros Hz. unfold ackable, set_ackAt, unset. cbn [Alert.ackAt].
  rewrite (bool_decide_eq_false_2 (z = 0%Z)) by lia. apply andb_false_r.
Qed.

Lemma resolvable_set_resolvedAt (id : string) (z : Z) (a : Alert.t) :
  (0 < z)%Z → resolvable id (set_resolvedAt (Some z) a) = false.
Proof.
  intros Hz. unfold resolvable, set_resolvedAt, unset. cbn [Alert.resolvedAt].
  rewrite (bool_decide_eq_false_2 (z = 0%Z)) by lia. apply andb_false_r.
Qed.

Lemma ackAll_touchAll (id : string) :
  ackAll id = touchAll (ackable id) (λ now, set_ackAt (Some now)).
Proof. reflexivity. Qed.

Lemma resolveAll_touchAll (id : string) :
  resolveAll id = touchAll (resolvable id) (λ now, set_resolvedAt (Some now)).
Proof. reflexivity. Qed.

Lemma ackAlert_alerts (snap : State) (id : string) (cur : State) (o : Oracle) :
  alerts (ackAlert snap id cur o).1
  = (ackAll id (alerts cur) (afterHandler id snap o)).1.
Proof.
  unfold ackAlert, afterHandler, mbind, M_bind.
  destruct (findAlert id (alerts snap)) as [a|].
  - unfold mbind, M_bind. rewrite Date_now_run. unfold mret, M_ret.
    destruct (ackAll id (alerts cur) (tick_by 1 o)) as [arr o1]. cbn [fst].
    by destruct (_ && _).
  - unfold mret, M_ret. by destruct (ackAll id (alerts cur) o) as [arr o1].
Qed.

Lemma resolveAlert_alerts (snap : State) (id : string) (cur : State) (o : Oracle) :
  alerts (resolveAlert snap id cur o).1
  = (resolveAll id (alerts cur) (afterHandler id snap o)).1.
Proof.
  unfold resolveAlert, afterHandler, mbind, M_bind.
  destruct (findAlert id (alerts snap)) as [a|].
  - unfold mbind, M_bind. rewrite Date_now_run. unfold mret, M_ret.
    destruct (resolveAll id (alerts cur) (tick_by 1 o)) as [arr o1]. cbn [fst].
    by destruct (_ && _).
  - unfold mret, M_ret. by destruct (resolveAll id (alerts cur) o) as [arr o1].
Qed.

Lemma ackAll_fields (id : string) (arr : list Alert.t) (o : Oracle) :
  Forall2
    (λ a a', if bool_decide (Alert.id a = id) && unset (Alert.ackAt a)
             then (∃ k, Alert.ackAt a' = Some (readings o k))
                  ∧ unset (Alert.ackAt a') = false
                  ∧ Alert.resolvedAt a' = Alert.resolvedAt a
                  ∧ Alert.id a' = Alert.id a
                  ∧ Alert.createdAt a' = Alert.createdAt a
                  ∧ Alert.type a' = Alert.type a
                  ∧ Alert.severity a' = Alert.severity a
                  ∧ Alert.message a' = Alert.message a
             else a' = a)
    arr (ackAll id arr o).1.
Proof.
  rewrite ackAll_touchAll.
  eapply Forall2_impl; [apply touchAll_pointwise|].
  intros a a' H. cbn beta in H. fold (ackable id a). destruct (ackable id a); [|done].
  destruct H as [k ->]. cbn [set_ackAt Alert.ackAt unset].
  split_and!; [by exists k| |done..].
  apply bool_decide_eq_false_2. unfold readings. lia.
Qed.

Lemma resolveAll_fields (id : string) (arr : list Alert.t) (o : Oracle) :
  Forall2
    (λ a a', if bool_decide (Alert.id a = id) && unset (Alert.resolvedAt a)
             then (∃ k, Alert.resolvedAt a' = Some (readings o k))
                  ∧ unset (Alert.resolvedAt a') = false
                  ∧ Alert.ackAt a' = Alert.ackAt a
                  ∧ Alert.id a' = Alert.id a
                  ∧ Alert.createdAt a' = Alert.createdAt a
                  ∧ Alert.type a' = Alert.type a
                  ∧ Alert.severity a' = Alert.severity a
                  ∧ Alert.message a' = Alert.message a
             else a' = a)
    arr (resolveAll id arr o).1.
Proof.
  rewrite resolveAll_touchAll.
  eapply Forall2_impl; [apply touchAll_pointwise|].
  intros a a' H. cbn beta in H. fold (resolvable id a).
  destruct (resolvable id a); [|done].
  destruct H as [k ->]. cbn [set_resolvedAt Alert.resolvedAt unset].
  split_and!; [by exists k| |done..].
  apply bool_decide_eq_false_2. unfold readings. lia.
Qed.

(** C7. For every alert list and identifier.  Acknowledging treats the list
    alert by alert.  An alert that carries the identifier and whose [ackAt] is
    unset comes out with [ackAt] set to a reading of the clock, a value that
    counts as set, and with its identifier, creation time, type, severity,
    message and [resolvedAt] as they were; every other alert comes out as it
    is.  Resolving does the same with [resolvedAt], leaving [ackAt] as it was.
    Each is idempotent: applied to its own result, at any later time, it
    changes nothing.  When no alert carries the identifier the list is
    returned as it is.  The alert list the handlers [ackAlert] and
    [resolveAlert] leave is the one so computed, the stamps read from the
    clock after the reading of the handler itself. *)
Theorem lifecycle_idempotent (id : string) (arr : list Alert.t) (o o' : Oracle) :
  let acked := (ackAll id arr o).1 in
  let resolved := (resolveAll id arr o).1 in
  Forall2
    (λ a a', if bool_decide (Alert.id a = id) && unset (Alert.ackAt a)
             then (∃ k, Alert.ackAt a' = Some (readings o k))
                  ∧ unset (Alert.ackAt a') = false
                  ∧ Alert.resolvedAt a' = Alert.resolvedAt a
                  ∧ Alert.id a' = Alert.id a
                  ∧ Alert.createdAt a' = Alert.createdAt a
                  ∧ Alert.type a' = Alert.type a
                  ∧ Alert.severity a' = Alert.severity a
                  ∧ Alert.message a' = Alert.message a
             else a' = a)
    arr acked
  ∧ Forall2
      (λ a a', if bool_decide (Alert.id a = id) && unset (Alert.resolvedAt a)
               then (∃ k, Alert.resolvedAt a' = Some (readings o k))
                    ∧ unset (Alert.resolvedAt a') = false
                    ∧ Alert.ackAt a' = Alert.ackAt a
                    ∧ Alert.id a' = Alert.id a
                    ∧ Alert.createdAt a' = Alert.createdAt a
                    ∧ Alert.type a' = Alert.type a
                    ∧ Alert.severity a' = Alert.severity a
                    ∧ Alert.message a' = Alert.message a
               else a' = a)
      arr resolved
  ∧ (ackAll id acked o').1 = acked
  ∧ (resolveAll id resolved o').1 = resolved
  ∧ ((∀ a, a ∈ arr → Alert.id a ≠ id) → acked = arr ∧ resolved = arr)
  ∧ (∀ snap cur,
       alerts (ackAlert snap id cur o).1
       = (ackAll id (alerts cur) (afterHandler id snap o)).1
       ∧ alerts (resolveAlert snap id cur o).1
         = (resolveAll id (alerts cur) (afterHandler id snap o)).1).
Proof.
  intros acked resolved. subst acked resolved.
  split_and!.
  - apply ackAll_fields.
  - apply resolveAll_fields.
  - rewrite ackAll_touchAll.
    apply touchAll_idempotent. intros z a Hz. by apply ackable_set_ackAt.
  - rewrite resolveAll_touchAll.
    apply touchAll_idempotent. intros z a Hz. by apply resolvable_set_resolvedAt.
  - rewrite ackAll_touchAll, resolveAll_touchAll.
    intros Hid. split; apply touchAll_noop; intros a Ha.
    + unfold ackable. by rewrite bool_decide_eq_false_2 by by apply Hid.
    + unfold resolvable. by rewrite bool_decide_eq_false_2 by by apply Hid.
  - intros snap cur. split; [apply ackAlert_alerts|apply resolveAlert_alerts].
Qed.

Lemma lifecycle_idempotent_witness :
  let arr := [sample_alert "a1" "Saturation (demo)";
              sample_alert "a2" "Latency p95 (demo)"] in
  let o := sample_oracle 1000 in
  let acked := (ackAll "a1" arr o).1 in
  let resolved := (resolveAll "a1" arr o).1 in
  (∃ a' k, acked = [a'; sample_alert "a2" "Latency p95 (demo)"]
           ∧ Alert.ackAt a' = Some (readings o k) ∧ Alert.resolvedAt a' = None
           ∧ Alert.id a' = "a1")
  ∧ (∃ a' k, resolved = [a'; sample_alert "a2" "Latency p95 (demo)"]
             ∧ Alert.resolvedAt a' = Some (readings o k) ∧ Alert.ackAt a' = None
             ∧ Alert.id a' = "a1")
  ∧ (ackAll "a1" acked (sample_oracle 5000)).1 = acked
  ∧ (resolveAll "a1" resolved (sample_oracle 5000)).1 = resolved
  ∧ (ackAll "unknown" arr o).1 = arr
  ∧ (resolveAll "unknown" arr o).1 = arr.
Proof.
  intros arr o acked resolved.
  destruct (lifecycle_idempotent "a1" arr o (sample_oracle 5000))
    as (Hack & Hres & Hack2 & Hres2 & _).
  destruct (lifecycle_idempotent "unknown" arr o o) as (_ & _ & _ & _ & Hno & _).
  fold acked in Hack, Hack2. fold resolved in Hres, Hres2.
  split_and!.
  - destruct acked as [|a1 [|a2 [|? ?]]];
      [by apply Forall2_length in Hack..| |by apply Forall2_length in Hack].
    apply Forall2_cons_1 in Hack as [H1 Hack].
    apply Forall2_cons_1 in Hack as [H2 _].
    cbn in H1, H2. destruct H1 as ([k Hk] & _ & Hr & Hi & _).
    exists a1, k. by rewrite H2.
  - destruct resolved as [|a1 [|a2 [|? ?]]];
      [by apply Forall2_length in Hres..| |by apply Forall2_length in Hres].
    apply Forall2_cons_1 in Hres as [H1 Hres].
    apply Forall2_cons_1 in Hres as [H2 _].
    cbn in H1, H2. destruct H1 as ([k Hk] & _ & Hr & Hi & _).
    exists a1, k. by rewrite H2.
  - exact Hack2.
  - exact Hres2.
  - apply Hno. intros a Ha.
    apply elem_of_cons in Ha as [->|Ha]; [discriminate|].
    apply list_elem_of_singleton in Ha as ->. discriminate.
  - apply Hno. intros a Ha.
    apply elem_of_cons in Ha as [->|Ha]; [discriminate|].
    apply list_elem_of_singleton in Ha as ->. discriminate.
Defined.

(** An acknowledged alert keeps the time of its first acknowledgement. *)
Example ack_twice :
  let arr := [sample_alert "a1" "Saturation (demo)"; sample_alert "a2" "Latency p95 (demo)"] in
  let once := (ackAll "a1" arr (sample_oracle 1000)).1 in
  map Alert.ackAt once = [Some 1000%Z; None]
  ∧ (ackAll "a1" once (sample_oracle 5000)).1 = once.
Proof. split; reflexivity. Qed.

(** ** The fire condition of a window pair *)

Lemma ofType_app (ty : string) (l1 l2 : list NewAlert.t) :
  ofType ty (l1 ++ l2) = ofType ty l1 ++ ofType ty l2.
Proof. apply List.filter_app. Qed.

Lemma ofType_nil_iff (ty : string) (found : list NewAlert.t) :
  ofType ty found = [] ↔ ∀ a, a ∈ found → NewAlert.type a ≠ ty.
Proof.
  unfold ofType. induction found as [|a found IH]; simpl.
  - split; [|done]. intros _ a Ha. by apply not_elem_of_nil in Ha.
  - case_bool_decide as Ha; split.
    + done.
    + intros H. exfalso. by apply (H a); [left|].
    + intros H x Hx. apply elem_of_cons in Hx as [->|Hx]; [done|]. by apply IH.
    + intros H. apply IH. intros x Hx. apply H. by right.
Qed.

Lemma ofType_elem (ty : string) (found : list NewAlert.t) (a : NewAlert.t) :
  a ∈ ofType ty found ↔ a ∈ found ∧ NewAlert.type a = ty.
Proof.
  unfold ofType. rewrite !list_elem_of_In, List.filter_In, bool_decide_eq_true. done.
Qed.

Lemma burnCandidates_other (st : State) (clk : nat → Z) (ps : list Pair) (ty : string) :
  ty ∉ map key ps → ofType ty (burnCandidates st clk ps) = [].
Proof.
  revert clk. induction ps as [|p ps IH]; intros clk Hty; [done|].
  cbn [burnCandidates]. rewrite ofType_app.
  apply not_elem_of_cons in Hty as [Hp Hps].
  rewrite IH by done. rewrite app_nil_r.
  destruct (fires _ _ _); [|done].
  unfold ofType. cbn [List.filter burnAlert NewAlert.type].
  by rewrite bool_decide_eq_false_2.
Qed.

(** Of a list of rules with distinct keys, the rule at position [i] is the
    only one to push a candidate of its type, and it pushes it when it
    fires. *)
Lemma burnCandidates_ofType (st : State) (clk : nat → Z) (ps : list Pair)
    (i : nat) (p : Pair) :
  NoDup (map key ps) → ps !! i = Some p →
  let s := burnStatsAt st (clk (2 * i)) (p_short p) in
  let l := burnStatsAt st (clk (2 * i + 1)) (p_long p) in
  ofType (key p) (burnCandidates st clk ps)
  = if fires p s l then [burnAlert st p s l] else [].
Proof.
  revert clk i. induction ps as [|q ps IH]; intros clk i Hnd Hi; [done|].
  apply NoDup_cons in Hnd as [Hq Hnd].
  cbn [burnCandidates]. rewrite ofType_app.
  destruct i as [|i]; simpl in Hi.
  - injection Hi as ->. rewrite burnCandidates_other by done.
    rewrite app_nil_r. simpl.
    destruct (fires _ _ _); [|done].
    unfold ofType. cbn [List.filter burnAlert NewAlert.type].
    by rewrite bool_decide_eq_true_2.
  - assert (Hne : key q ≠ key p).
    { intros Heq. apply Hq. rewrite Heq. apply list_elem_of_fmap.
      exists p. split; [done|]. by eapply list_elem_of_lookup_2. }
    replace (ofType (key p) (if fires _ _ _ then _ else _)) with (@nil NewAlert.t).
    2:{ destruct (fires _ _ _); [|done].
        unfold ofType. cbn [List.filter burnAlert NewAlert.type].
        by rewrite bool_decide_eq_false_2. }
    rewrite app_nil_l.
    rewrite (IH (λ k, clk (2 + k)) i Hnd Hi).
    replace (2 + 2 * i) with (2 * S i) by lia.
    replace (2 + (2 * i + 1)) with (2 * S i + 1) by lia. done.
Qed.

Lemma pairs_keys (st : State) :
  map key (pairs st)
  = ["Page: 1h & 5m @14.4x"; "Page: 6h & 30m @6x"; "Ticket: 24h & 2h @3x";
     "Ticket: 3d & 6h @1x"].
Proof. reflexivity. Qed.

Lemma pairs_keys_NoDup (st : State) : NoDup (map key (pairs st)).
Proof. rewrite pairs_keys. by apply (bool_decide_unpack _). Qed.

Lemma demoAlerts_app (st : State) (now : Z) (acc : list NewAlert.t) :
  demoAlerts st now acc = acc ++ demoAlerts st now [].
Proof.
  unfold demoAlerts.
  case_tests;
    by rewrite <- ?app_assoc, ?app_nil_r.
Qed.

Lemma demoAlerts_types (st : State) (now : Z) (a : NewAlert.t) :
  a ∈ demoAlerts st now [] → NewAlert.type a ∈ demoTypes.
Proof.
  unfold demoAlerts, demoTypes.
  case_tests;
    cbn [app]; intros Ha;
    repeat (apply elem_of_cons in Ha as [->|Ha]; [set_solver|]);
    by apply not_elem_of_nil in Ha.
Qed.

Lemma demoAlerts_other (st : State) (now : Z) (ty : string) :
  ty ∉ demoTypes → ofType ty (demoAlerts st now []) = [].
Proof.
  intros Hty. apply ofType_nil_iff. intros a Ha Heq. subst ty.
  by apply Hty, (demoAlerts_types st now).
Qed.

Lemma pairs_keys_not_demo (st : State) (i : nat) (p : Pair) :
  pairs st !! i = Some p → key p ∉ demoTypes.
Proof.
  intros Hi.
  assert (Hk : key p ∈ map key (pairs st)).
  { apply list_elem_of_fmap. exists p. split; [done|]. by eapply list_elem_of_lookup_2. }
  rewrite pairs_keys in Hk. unfold demoTypes.
  repeat (apply elem_of_cons in Hk as [->|Hk]; [by apply (bool_decide_unpack _)|]).
  by apply not_elem_of_nil in Hk.
Qed.

Lemma newAlerts_ofType (st : State) (now : Z) (o : Oracle) (i : nat) (p : Pair) :
  pairs st !! i = Some p →
  let s := burnStatsAt st (readings o (2 * i)) (p_short p) in
  let l := burnStatsAt st (readings o (2 * i + 1)) (p_long p) in
  ofType (key p) (newAlerts st now o).1
  = if fires p s l then [burnAlert st p s l] else [].
Proof.
  intros Hi s l. rewrite newAlerts_run. cbn [fst].
  rewrite demoAlerts_app, ofType_app.
  rewrite (demoAlerts_other st now) by by eapply pairs_keys_not_demo.
  rewrite app_nil_r. by apply burnCandidates_ofType; [apply pairs_keys_NoDup|].
Qed.

Lemma fires_iff (p : Pair) (s l : BurnStats) :
  fires p s l = true ↔
    (burn s >=? p_thr p)%js = true ∧ (burn l >=? p_thr p)%js = true
    ∧ 20 < total s ∧ 20 < total l.
Proof.
  unfold fires. rewrite !andb_true_iff, !bool_decide_eq_true. tauto.
Qed.

Lemma filter_all {A} (f : A → bool) (l : list A) :
  (∀ x, x ∈ l → f x = true) → List.filter f l = l.
Proof.
  induction l as [|x l IH]; intros H; simpl; [done|].
  rewrite (H x) by left. f_equal. apply IH. intros y Hy. apply H. by right.
Qed.

(** A window that holds events, all of them bad: 100 percent bad. *)
Lemma burnStatsAt_all_bad (st : State) (now : Z) (seconds : num) :
  (∀ ev, ev ∈ logs st → goodByPolicy st (Some ev) = false) →
  total (burnStatsAt st now seconds) ≠ 0 →
  badPct (burnStatsAt st now seconds) = lit 100
  ∧ burn (burnStatsAt st now seconds)
    = if (lit 100 - sloTarget st >? lit 0)%js
      then (lit 100 / (lit 100 - sloTarget st))%js else PInf.
Proof.
  intros Hbad. unfold burnStatsAt.
  set (slice := List.filter _ (logs st)).
  case_bool_decide as Hn; [done|]. intros _. cbn [badPct burn].
  assert (Hall : List.filter (λ l, negb (goodByPolicy st (Some l))) slice = slice).
  { apply filter_all. intros ev Hev. rewrite Hbad; [done|].
    subst slice. apply list_elem_of_In, List.filter_In in Hev as [Hev _].
    by apply list_elem_of_In. }
  rewrite Hall.
  assert (Hpct : (of_nat (length slice) / of_nat (length slice) * lit 100)%js = lit 100).
  { assert (Hone : (of_nat (length slice) / of_nat (length slice))%js = lit 1).
    { unfold of_nat, of_Z, div, lit.
      rewrite bool_decide_eq_false_2 by (by rewrite of_nat_zero).
      apply rnd_proper. rewrite this_of_Z. field.
      change 0%Q with (inject_Z 0). rewrite inject_Z_injective. lia. }
    rewrite Hone. num_eq. }
  by rewrite Hpct.
Qed.

(** C1. In every evaluation pass and for every window-pair rule, with [s] and
    [l] the statistics the pass computes for the short and the long window of
    the rule: the pass produces a candidate of the type of the rule if and
    only if [s.burn >= thr], [l.burn >= thr], [s.total > 20] and
    [l.total > 20]; it produces at most one, the burn alert of the rule.  In
    particular under availability target 99.9 and threshold 14.4, when both
    windows hold 25 events and every event of the history is bad, both windows
    show 100 percent bad and burn 1000.0000000000568, the quotient
    [100 / (100 - 99.9)] in binary64, and the rule produces exactly one
    candidate. *)
Theorem burn_rule_fires_iff (st : State) (now : Z) (o : Oracle) (i : nat) (p : Pair) :
  pairs st !! i = Some p →
  let s := burnStatsAt st (readings o (2 * i)) (p_short p) in
  let l := burnStatsAt st (readings o (2 * i + 1)) (p_long p) in
  let found := (newAlerts st now o).1 in
  ((∃ a, a ∈ found ∧ NewAlert.type a = key p) ↔
     (burn s >=? p_thr p)%js = true ∧ (burn l >=? p_thr p)%js = true
     ∧ 20 < total s ∧ 20 < total l)
  ∧ ofType (key p) found = (if fires p s l then [burnAlert st p s l] else [])
  ∧ (availabilityTarget (slo st) = lit 99.9 → p_thr p = lit 14.4 →
     total s = 25 → total l = 25 →
     (∀ ev, ev ∈ logs st → goodByPolicy st (Some ev) = false) →
     badPct s = lit 100 ∧ burn s = lit 1000.0000000000568
     ∧ badPct l = lit 100 ∧ burn l = lit 1000.0000000000568
     ∧ length (ofType (key p) found) = 1).
Proof.
  intros Hi s l found.
  assert (Hty : ofType (key p) found
                = if fires p s l then [burnAlert st p s l] else [])
    by (by apply newAlerts_ofType).
  split_and!.
  - rewrite <- fires_iff. split.
    + intros (a & Ha & Hk).
      assert (Hin : a ∈ ofType (key p) found) by by apply ofType_elem.
      rewrite Hty in Hin. destruct (fires p s l); [done|].
      by apply not_elem_of_nil in Hin.
    + intros Hf. rewrite Hf in Hty. exists (burnAlert st p s l).
      apply ofType_elem. rewrite Hty. by left.
  - done.
  - intros Htarget Hthr Hs Hl Hbad.
    destruct (burnStatsAt_all_bad st (readings o (2 * i)) (p_short p) Hbad)
      as [Hps Hbs]; [fold s; lia|].
    destruct (burnStatsAt_all_bad st (readings o (2 * i + 1)) (p_long p) Hbad)
      as [Hpl Hbl]; [fold l; lia|].
    fold s in Hps, Hbs. fold l in Hpl, Hbl.
    unfold sloTarget in Hbs, Hbl. rewrite Htarget in Hbs, Hbl.
    assert (Hburn : (if (lit 100 - lit 99.9 >? lit 0)%js
                     then (lit 100 / (lit 100 - lit 99.9))%js else PInf)
                    = lit 1000.0000000000568).
    { num_eq. }
    rewrite Hburn in Hbs, Hbl.
    split_and!; [exact Hps|exact Hbs|exact Hpl|exact Hbl|].
    rewrite Hty.
    assert (Hf : fires p s l = true).
    { apply fires_iff. rewrite Hbs, Hbl, Hthr, Hs, Hl.
      assert (Hge : (lit 1000.0000000000568 >=? lit 14.4)%js = true)
        by (vm_compute; reflexivity).
      split_and!; [exact Hge|exact Hge|lia|lia]. }
    rewrite Hf. reflexivity.
Qed.

Lemma burn_rule_fires_iff_witness :
  let st := sample_outage 1000000 in
  let o := sample_oracle 1000000 in
  burn (burnStatsAt st (readings o 0) (short GOOGLE_MWMB.pageA))
  = lit 1000.0000000000568
  ∧ burn (burnStatsAt st (readings o 1) (long GOOGLE_MWMB.pageA))
    = lit 1000.0000000000568
  ∧ length (ofType "Page: 1h & 5m @14.4x" (newAlerts st 1000000 o).1) = 1.
Proof.
  intros st o.
  pose proof (burn_rule_fires_iff st 1000000 o 0
    {| key := "Page: 1h & 5m @14.4x";
       p_short := short GOOGLE_MWMB.pageA; p_long := long GOOGLE_MWMB.pageA;
       p_thr := thr GOOGLE_MWMB.pageA; p_severity := "P0" |} eq_refl)
    as (_ & _ & H).
  destruct (H eq_refl eq_refl) as (_ & Hs & _ & Hl & Hone).
  - vm_compute. reflexivity.
  - vm_compute. reflexivity.
  - intros ev Hev. apply elem_of_replicate in Hev as [-> _]. reflexivity.
  - split_and!; [exact Hs|exact Hl|exact Hone].
Defined.

(** Nine bad events among 125 under target 99.5 burn 14.399999999999999
    times the budget in both windows: the 14.4x rule stays silent, the 6x
    rule fires. *)
Example page_rule_below_threshold :
  let found := (newAlerts (sample_mixed 1000000) 1000000 (sample_oracle 1000000)).1 in
  ofType "Page: 1h & 5m @14.4x" found = []
  ∧ length (ofType "Page: 6h & 30m @6x" found) = 1.
Proof. split; vm_compute; reflexivity. Qed.

(** ** Deduplication against the open alerts *)

Lemma stamp_run (a : NewAlert.t) (o : Oracle) :
  stamp a o = (stamped o 0 a, after_stamps 1 o).
Proof.
  unfold stamp, stamped, after_stamps, readings, uuid, Date_now, mbind, M_bind, mret, M_ret.
  cbn. by rewrite !Nat.add_0_r, !Nat.add_1_r.
Qed.

Lemma stamped_after (n j : nat) (o : Oracle) (a : NewAlert.t) :
  stamped (after_stamps n o) j a = stamped o (n + j) a.
Proof.
  unfold stamped, after_stamps, readings. cbn. by rewrite !Nat.add_assoc.
Qed.

Lemma mapM_stamp_run (l : list NewAlert.t) (o : Oracle) :
  mapM stamp l o = (imap (stamped o) l, after_stamps (length l) o).
Proof.
  revert o. induction l as [|a l IH]; intros o.
  - cbn. unfold mret, M_ret, after_stamps. rewrite !Nat.add_0_r. by destruct o.
  - cbn [mapM]. unfold mbind, M_bind at 1. rewrite stamp_run.
    unfold mbind, M_bind at 1. rewrite IH. unfold mret, M_ret. cbn [imap length].
    f_equal.
    + f_equal. apply imap_ext. intros j x _. cbn. by rewrite stamped_after.
    + unfold after_stamps. cbn. f_equal; lia.
Qed.

Lemma toAdd_run (new : list NewAlert.t) (prev : list Alert.t) (o : Oracle) :
  toAdd new prev o
  = (imap (stamped o) (survivors new prev),
     after_stamps (length (survivors new prev)) o).
Proof. unfold toAdd. by rewrite mapM_stamp_run. Qed.

(** The store a pass leaves: the stamped survivors, then the store as it
    was. *)
Lemma checkAlerts_alerts (snap : State) (now : Z) (cur : State) (o : Oracle) :
  alerts (checkAlerts snap now cur o).1
  = imap (stamped (tick_by 8 o)) (survivors (newAlerts snap now o).1 (alerts cur))
    ++ alerts cur.
Proof.
  unfold checkAlerts, mbind, M_bind. rewrite newAlerts_run. cbn [fst].
  set (new := demoAlerts _ _ _).
  case_bool_decide as Hnew.
  - apply nil_length_inv in Hnew. by rewrite Hnew.
  - rewrite toAdd_run. case_bool_decide as Hadd.
    + apply nil_length_inv in Hadd. by rewrite Hadd.
    + unfold mret, M_ret. cbn [fst]. by repeat case_match.
Qed.

Lemma filter_sublist {A} (f : A → bool) (l : list A) : List.filter f l `sublist_of` l.
Proof.
  induction l as [|x l IH]; simpl; [constructor|].
  destruct (f x); by constructor.
Qed.

Lemma burnCandidates_types (st : State) (clk : nat → Z) (ps : list Pair) :
  map NewAlert.type (burnCandidates st clk ps) `sublist_of` map key ps.
Proof.
  revert clk. induction ps as [|p ps IH]; intros clk; [constructor|].
  cbn [burnCandidates]. rewrite map_app. cbn [map].
  destruct (fires _ _ _); cbn; by constructor.
Qed.

Lemma demoAlerts_types_sublist (st : State) (now : Z) :
  map NewAlert.type (demoAlerts st now []) `sublist_of` demoTypes.
Proof.
  unfold demoAlerts, demoTypes.
  case_tests;
    cbn [app map NewAlert.type]; repeat constructor.
Qed.

(** The candidates of a pass have pairwise different types. *)
Lemma newAlerts_types_NoDup (st : State) (now : Z) (o : Oracle) :
  NoDup (map NewAlert.type (newAlerts st now o).1).
Proof.
  rewrite newAlerts_run. cbn [fst]. rewrite demoAlerts_app, map_app.
  eapply sublist_NoDup;
    [|apply sublist_app; [apply burnCandidates_types|apply demoAlerts_types_sublist]].
  rewrite pairs_keys. unfold demoTypes. by apply (bool_decide_unpack _).
Qed.

(** ** At most one open alert of a type *)

Lemma openTypes_elem (ty : string) (arr : list Alert.t) :
  ty ∈ openTypes arr ↔ ty ∈ openTypeList arr.
Proof. unfold openTypes, openTypeList. apply elem_of_list_to_set. Qed.

Lemma survivors_elem (a : NewAlert.t) (new : list NewAlert.t) (prev : list Alert.t) :
  a ∈ survivors new prev ↔ a ∈ new ∧ NewAlert.type a ∉ openTypeList prev.
Proof.
  unfold survivors.
  rewrite list_elem_of_In, List.filter_In, negb_true_iff, bool_decide_eq_false.
  by rewrite openTypes_elem, <- list_elem_of_In.
Qed.

Lemma imap_stamped_types (o : Oracle) (l : list NewAlert.t) :
  map Alert.type (imap (stamped o) l) = map NewAlert.type l.
Proof.
  revert o. induction l as [|a l IH]; intros o; [done|].
  cbn [imap map]. f_equal.
  rewrite <- (IH (after_stamps 1 o)). f_equal. apply imap_ext.
  intros j x _. cbn. by rewrite stamped_after.
Qed.

Lemma imap_stamped_open (o : Oracle) (l : list NewAlert.t) :
  List.filter isOpen (imap (stamped o) l) = imap (stamped o) l.
Proof.
  apply filter_all. intros a Ha.
  apply list_elem_of_lookup in Ha as [j Hj].
  rewrite list_lookup_imap in Hj.
  destruct (l !! j); [|done]. by injection Hj as <-.
Qed.

Lemma openTypeList_app (l k : list Alert.t) :
  openTypeList (l ++ k) = openTypeList l ++ openTypeList k.
Proof. unfold openTypeList. by rewrite List.filter_app, map_app. Qed.

Lemma openTypeList_stamped (o : Oracle) (l : list NewAlert.t) (prev : list Alert.t) :
  openTypeList (imap (stamped o) l ++ prev) = map NewAlert.type l ++ openTypeList prev.
Proof.
  rewrite openTypeList_app. unfold openTypeList at 1.
  by rewrite imap_stamped_open, imap_stamped_types.
Qed.

Lemma checkAlerts_openTypeList (snap : State) (now : Z) (cur : State) (o : Oracle) :
  openTypeList (alerts (checkAlerts snap now cur o).1)
  = map NewAlert.type (survivors (newAlerts snap now o).1 (alerts cur))
    ++ openTypeList (alerts cur).
Proof. rewrite checkAlerts_alerts. apply openTypeList_stamped. Qed.

Lemma sublist_map {A B} (f : A → B) (l k : list A) :
  l `sublist_of` k → map f l `sublist_of` map f k.
Proof. induction 1; cbn [map]; by constructor. Qed.

Lemma elem_of_map {A B} (f : A → B) (l : list A) (x : B) :
  x ∈ map f l ↔ ∃ y, x = f y ∧ y ∈ l.
Proof.
  induction l as [|a l IH]; cbn [map].
  - split; [by intros ?%not_elem_of_nil|by intros (y & _ & ?%not_elem_of_nil)].
  - rewrite elem_of_cons, IH. split.
    + intros [->|(y & -> & Hy)]; [exists a; split; [done|left]|exists y; split; [done|by right]].
    + intros (y & -> & [->|Hy]%elem_of_cons); [by left|right; by exists y].
Qed.

Lemma checkAlerts_open_unique (snap : State) (now : Z) (cur : State) (o : Oracle) :
  NoDup (openTypeList (alerts cur)) →
  NoDup (openTypeList (alerts (checkAlerts snap now cur o).1)).
Proof.
  intros Hnd. rewrite checkAlerts_openTypeList. apply NoDup_app. split_and!.
  - eapply sublist_NoDup; [apply (newAlerts_types_NoDup snap now o)|].
    apply sublist_map, filter_sublist.
  - intros ty Hty. apply elem_of_map in Hty as (a & -> & Ha).
    by apply survivors_elem in Ha as [_ Ha].
  - done.
Qed.

(** Updates that keep the type of every alert and open no closed alert. *)
Lemma openTypeList_pointwise (arr arr' : list Alert.t) :
  Forall2 (λ a a', Alert.type a' = Alert.type a
                   ∧ (isOpen a' = true → isOpen a = true)) arr arr' →
  openTypeList arr' `sublist_of` openTypeList arr.
Proof.
  unfold openTypeList. induction 1 as [|a a' arr arr' [Hty Hop] _ IH]; [constructor|].
  cbn [List.filter]. destruct (isOpen a') eqn:Ha'.
  - rewrite Hop by done. cbn [map]. rewrite Hty. by constructor.
  - destruct (isOpen a); [|done]. cbn [map]. by constructor.
Qed.

Lemma openTypeList_pointwise_eq (arr arr' : list Alert.t) :
  Forall2 (λ a a', Alert.type a' = Alert.type a ∧ isOpen a' = isOpen a) arr arr' →
  openTypeList arr' = openTypeList arr.
Proof.
  unfold openTypeList. induction 1 as [|a a' arr arr' [Hty Hop] _ IH]; [done|].
  cbn [List.filter]. rewrite Hop. destruct (isOpen a); cbn [map]; by rewrite ?Hty, IH.
Qed.

Lemma recordsOf_pointwise (ty : string) (arr arr' : list Alert.t) :
  Forall2 (λ a a', Alert.type a' = Alert.type a) arr arr' →
  length (recordsOf ty arr') = length (recordsOf ty arr).
Proof.
  unfold recordsOf. induction 1 as [|a a' arr arr' Hty _ IH]; [done|].
  cbn [List.filter]. rewrite Hty. case_bool_decide; cbn [length]; by rewrite IH.
Qed.

Lemma ackAll_pointwise (id : string) (arr : list Alert.t) (o : Oracle) :
  Forall2 (λ a a', Alert.type a' = Alert.type a ∧ isOpen a' = isOpen a)
    arr (ackAll id arr o).1.
Proof.
  eapply Forall2_impl;
    [exact (touchAll_pointwise (ackable id) (λ now, set_ackAt (Some now)) arr o)|].
  intros a a' H. cbn beta in H.
  destruct (ackable id a); [by destruct H as [k ->]|by subst].
Qed.

Lemma resolveAll_pointwise (id : string) (arr : list Alert.t) (o : Oracle) :
  Forall2 (λ a a', Alert.type a' = Alert.type a
                   ∧ (isOpen a' = true → isOpen a = true))
    arr (resolveAll id arr o).1.
Proof.
  eapply Forall2_impl;
    [exact (touchAll_pointwise (resolvable id) (λ now, set_resolvedAt (Some now)) arr o)|].
  intros a a' H. cbn beta in H.
  destruct (resolvable id a) eqn:Hr; [|by subst].
  destruct H as [k ->]. split; [done|]. intros _.
  unfold resolvable in Hr. by apply andb_true_iff in Hr as [_ Hr].
Qed.

Lemma perform_other_alerts (cur : State) (a : action) :
  match a with
  | Push _ _ _ | Batch _ | Edit _ => alerts (perform cur a) = alerts cur
  | _ => True
  end.
Proof.
  destruct a as [| | | |snap partial o|batch|e]; [exact I|exact I|exact I|exact I| | |].
  - cbn [perform]. unfold pushManualLog, mbind, M_bind.
    by destruct (manualEvent snap partial o).
  - reflexivity.
  - destruct e; cbn [perform apply_edit]; try reflexivity.
    + unfold toggleLockExpected. by destruct v.
    + unfold trackLockedTarget. by destruct (negb _).
    + unfold syncTierPresets. by repeat case_match.
Qed.

(** The invariant: the open alerts of the store have pairwise different
    types. *)
Lemma perform_open_unique (cur : State) (a : action) :
  NoDup (openTypeList (alerts cur)) → NoDup (openTypeList (alerts (perform cur a))).
Proof.
  intros Hnd. pose proof (perform_other_alerts cur a) as Hother.
  destruct a as [snap now o|snap id o|snap id o| |snap partial o|batch|e];
    [| | | |by rewrite Hother..].
  - by apply checkAlerts_open_unique.
  - cbn [perform]. rewrite ackAlert_alerts.
    by rewrite (openTypeList_pointwise_eq _ _ (ackAll_pointwise id (alerts cur) _)).
  - cbn [perform]. rewrite resolveAlert_alerts.
    eapply sublist_NoDup; [exact Hnd|].
    apply openTypeList_pointwise, resolveAll_pointwise.
  - cbn. constructor.
Qed.

Lemma run_open_unique (acts : list action) (st : State) :
  NoDup (openTypeList (alerts st)) → NoDup (openTypeList (alerts (run acts st))).
Proof.
  revert st. induction acts as [|a acts IH]; intros st Hnd; [done|].
  cbn. apply IH. by apply perform_open_unique.
Qed.

Lemma filter_by_none {A} (f : A → string) (ty : string) (l : list A) :
  ty ∉ map f l → List.filter (λ a, bool_decide (f a = ty)) l = [].
Proof.
  induction l as [|a l IH]; [done|]. cbn [map List.filter].
  intros [Ha Hl]%not_elem_of_cons.
  rewrite bool_decide_eq_false_2 by done. by apply IH.
Qed.

Lemma NoDup_at_most_one {A} (f : A → string) (ty : string) (l : list A) :
  NoDup (map f l) → length (List.filter (λ a, bool_decide (f a = ty)) l) ≤ 1.
Proof.
  induction l as [|a l IH]; [cbn; lia|]. cbn [map List.filter].
  intros [Ha Hnd]%NoDup_cons. case_bool_decide as Hty.
  - subst ty. rewrite filter_by_none by done. cbn. lia.
  - by apply IH.
Qed.

Lemma filter_by_some {A} (f : A → string) (ty : string) (l : list A) :
  ty ∈ map f l → 1 ≤ length (List.filter (λ a, bool_decide (f a = ty)) l).
Proof.
  induction l as [|a l IH]; cbn [map List.filter]; [by intros ?%not_elem_of_nil|].
  intros [->|Hl]%elem_of_cons.
  - rewrite bool_decide_eq_true_2 by done. cbn. lia.
  - case_bool_decide; cbn [length]; [lia|by apply IH].
Qed.

Lemma filter_by_map {A} (f : A → string) (ty : string) (l : list A) :
  length (List.filter (λ a, bool_decide (f a = ty)) l)
  = length (List.filter (λ s, bool_decide (s = ty)) (map f l)).
Proof.
  induction l as [|a l IH]; [done|]. cbn [map List.filter].
  case_bool_decide; cbn [length]; by rewrite IH.
Qed.

Lemma recordsOf_stamped (ty : string) (o : Oracle) (l : list NewAlert.t) :
  length (recordsOf ty (imap (stamped o) l)) = length (ofType ty l).
Proof.
  unfold recordsOf, ofType.
  by rewrite (filter_by_map Alert.type), (filter_by_map NewAlert.type),
    imap_stamped_types.
Qed.

Lemma recordsOf_app (ty : string) (l k : list Alert.t) :
  recordsOf ty (l ++ k) = recordsOf ty l ++ recordsOf ty k.
Proof. apply List.filter_app. Qed.

Lemma survivors_types_NoDup (snap : State) (now : Z) (o : Oracle) (prev : list Alert.t) :
  NoDup (map NewAlert.type (survivors (newAlerts snap now o).1 prev)).
Proof.
  eapply sublist_NoDup; [apply (newAlerts_types_NoDup snap now o)|].
  apply sublist_map, filter_sublist.
Qed.

(** A pass that finds a firing whose type is not open records it once. *)
Lemma checkAlerts_records_new (ty : string) (snap : State) (now : Z) (cur : State)
    (o : Oracle) :
  ty ∉ openTypeList (alerts cur) →
  ty ∈ map NewAlert.type (newAlerts snap now o).1 →
  ty ∈ openTypeList (alerts (checkAlerts snap now cur o).1)
  ∧ length (recordsOf ty (alerts (checkAlerts snap now cur o).1))
    = S (length (recordsOf ty (alerts cur))).
Proof.
  intros Hclosed Hnew.
  assert (Hsurv : ty ∈ map NewAlert.type (survivors (newAlerts snap now o).1 (alerts cur))).
  { apply elem_of_map in Hnew as (a & -> & Ha). apply elem_of_map.
    exists a. split; [done|]. by apply survivors_elem. }
  split.
  - rewrite checkAlerts_openTypeList. apply elem_of_app. by left.
  - rewrite checkAlerts_alerts, recordsOf_app, length_app, recordsOf_stamped.
    pose proof (filter_by_some NewAlert.type ty _ Hsurv) as Hge.
    pose proof (NoDup_at_most_one NewAlert.type ty _
                  (survivors_types_NoDup snap now o (alerts cur))) as Hle.
    unfold ofType. lia.
Qed.

(** A pass records nothing of a type that is open. *)
Lemma checkAlerts_records_open (ty : string) (snap : State) (now : Z) (cur : State)
    (o : Oracle) :
  ty ∈ openTypeList (alerts cur) →
  ofType ty (survivors (newAlerts snap now o).1 (alerts cur)) = []
  ∧ ty ∈ openTypeList (alerts (checkAlerts snap now cur o).1)
  ∧ length (recordsOf ty (alerts (checkAlerts snap now cur o).1))
    = length (recordsOf ty (alerts cur)).
Proof.
  intros Hopen.
  assert (Hnone : ofType ty (survivors (newAlerts snap now o).1 (alerts cur)) = []).
  { apply ofType_nil_iff. intros a Ha Hty. subst ty.
    by apply survivors_elem in Ha as [_ Ha]. }
  split_and!; [done| |].
  - rewrite checkAlerts_openTypeList. apply elem_of_app. by right.
  - by rewrite checkAlerts_alerts, recordsOf_app, length_app, recordsOf_stamped, Hnone.
Qed.

Lemma perform_quiet (ty : string) (cur : State) (a : action) :
  quiet a = true → ty ∈ openTypeList (alerts cur) →
  ty ∈ openTypeList (alerts (perform cur a))
  ∧ length (recordsOf ty (alerts (perform cur a))) = length (recordsOf ty (alerts cur)).
Proof.
  intros Hq Hopen. pose proof (perform_other_alerts cur a) as Hother.
  destruct a as [snap now o|snap id o|snap id o| |snap partial o|batch|e];
    [| |done|done|by rewrite Hother..].
  - by destruct (checkAlerts_records_open ty snap now cur o Hopen) as (_ & ? & ?).
  - cbn [perform]. rewrite ackAlert_alerts.
    pose proof (ackAll_pointwise id (alerts cur) (afterHandler id snap o)) as HF. split.
    + by rewrite (openTypeList_pointwise_eq _ _ HF).
    + apply recordsOf_pointwise. eapply Forall2_impl; [exact HF|]. by intros ?? [? _].
Qed.

Lemma run_quiet (ty : string) (acts : list action) (cur : State) :
  Forall (λ a, quiet a = true) acts → ty ∈ openTypeList (alerts cur) →
  ty ∈ openTypeList (alerts (run acts cur))
  ∧ length (recordsOf ty (alerts (run acts cur))) = length (recordsOf ty (alerts cur)).
Proof.
  revert cur. induction acts as [|a acts IH]; intros cur Hq Hopen; [done|].
  apply Forall_cons in Hq as [Ha Hq]. cbn.
  destruct (perform_quiet ty cur a Ha Hopen) as [Hopen' Hlen].
  destruct (IH (perform cur a) Hq Hopen') as [Hopen'' Hlen']. split; [done|].
  unfold run in Hlen'. by rewrite Hlen'.
Qed.

(** C4. In every state the component reaches from its first state, the
    open (not resolved) alerts of the store have pairwise different types: at
    most one open alert of any type.  A pass of [checkAlerts] leaves the store
    it found with, in front of it, one record for each candidate whose type is
    not the type of an open alert, in the order of the candidates, each with the
    identifier and the clock reading generated for it and neither acknowledged
    nor resolved.  So when a pass finds a firing whose type is not open, and a
    second pass follows with neither a resolve nor a reset in between, the
    second pass adds no record of that type, and after it the store holds one
    record of that type more than before the first pass: exactly one if it
    held none. *)
Theorem open_alert_unique (acts : list action) :
  let st := run acts initial in
  NoDup (openTypeList (alerts st))
  ∧ (∀ ty, length (recordsOf ty (List.filter isOpen (alerts st))) ≤ 1)
  ∧ (∀ snap now o,
       alerts (checkAlerts snap now st o).1
       = imap (stamped (tick_by 8 o)) (survivors (newAlerts snap now o).1 (alerts st))
         ++ alerts st
       ∧ ∀ a, a ∈ survivors (newAlerts snap now o).1 (alerts st) ↔
              a ∈ (newAlerts snap now o).1
              ∧ NewAlert.type a ∉ openTypeList (alerts st))
  ∧ (∀ ty snap1 now1 o1 mids snap2 now2 o2,
       ty ∉ openTypeList (alerts st) →
       ty ∈ map NewAlert.type (newAlerts snap1 now1 o1).1 →
       Forall (λ a, quiet a = true) mids →
       let st1 := run mids (perform st (Evaluate snap1 now1 o1)) in
       let st2 := perform st1 (Evaluate snap2 now2 o2) in
       ofType ty (survivors (newAlerts snap2 now2 o2).1 (alerts st1)) = []
       ∧ length (recordsOf ty (alerts st2)) = S (length (recordsOf ty (alerts st)))
       ∧ (recordsOf ty (alerts st) = [] → length (recordsOf ty (alerts st2)) = 1)).
Proof.
  intros st.
  assert (Hinv : NoDup (openTypeList (alerts st))).
  { apply run_open_unique. constructor. }
  split_and!.
  - done.
  - intros ty. by apply (NoDup_at_most_one Alert.type).
  - intros snap now o. split; [apply checkAlerts_alerts|].
    intros a. apply survivors_elem.
  - intros ty snap1 now1 o1 mids snap2 now2 o2 Hclosed Hnew Hq st1 st2.
    destruct (checkAlerts_records_new ty snap1 now1 st o1 Hclosed Hnew) as [Hopen1 Hlen1].
    destruct (run_quiet ty mids _ Hq Hopen1) as [Hopen Hlen].
    destruct (checkAlerts_records_open ty snap2 now2 st1 o2 Hopen) as (Hnone & _ & Hlen2).
    assert (Htotal : length (recordsOf ty (alerts st2))
                     = S (length (recordsOf ty (alerts st)))).
    { subst st2. cbn [perform]. rewrite Hlen2. subst st1. cbn [perform].
      by rewrite Hlen. }
    split_and!; [done|done|]. intros Hnil. by rewrite Htotal, Hnil.
Qed.

Lemma open_alert_unique_witness :
  let o := sample_oracle 1000000 in
  let snap := sample_outage 1000000 in
  let after_first := perform initial (Evaluate snap 1000000 o) in
  let after_ack := run [Ack snap "id0" o] after_first in
  length (recordsOf "Page: 1h & 5m @14.4x"
            (alerts (perform after_ack (Evaluate snap 1000000 o)))) = 1.
Proof.
  intros o snap after_first after_ack.
  pose proof (open_alert_unique []) as (_ & _ & _ & H).
  destruct (H "Page: 1h & 5m @14.4x" snap 1000000%Z o [Ack snap "id0" o]
              snap 1000000%Z o) as (_ & _ & Hone).
  - apply not_elem_of_nil.
  - apply (bool_decide_unpack _). vm_compute. exact I.
  - repeat constructor.
  - apply Hone. reflexivity.
Defined.

(** Two passes over the same outage, the first alert acknowledged in between:
    four records, one of each burn rule, and the points of one page. *)
Example two_passes_one_record :
  let o := sample_oracle 1000000 in
  let snap := sample_outage 1000000 in
  let st :=
    run [Evaluate snap 1000000 o; Ack snap "id0" (sample_oracle 1000500);
         Evaluate snap 1000000 o] initial in
  map Alert.type (alerts st) = map key (pairs snap)
  ∧ map Alert.id (alerts st) = ["id0"; "id1"; "id2"; "id3"]
  ∧ map Alert.ackAt (alerts st) = [Some 1000500%Z; None; None; None]
  ∧ score st = 40%Z ∧ badges st = ["Signal First"].
Proof. vm_compute. done. Qed.

(** ** What the candidates of a pass depend on *)

(** C9, as the specification states it, fails: one state, so one history and
    one policy, evaluated at two times gives different candidates.  At the
    time of the 25 failed requests the four burn rules fire; some ten days
    later no window holds an event and nothing fires.  And at the first time,
    with the same history and policy, a CPU reading of 90 adds the saturation
    alert. *)
Lemma candidates_depend_on_clock_and_cpu :
  let st := sample_outage 1000000 in
  let early := (newAlerts st 1000000 (sample_oracle 1000000)).1 in
  let late := (newAlerts st 900000000 (sample_oracle 900000000)).1 in
  let hot := (newAlerts (set_cpu (lit 90) st) 1000000 (sample_oracle 1000000)).1 in
  map NewAlert.type early
  = ["Page: 1h & 5m @14.4x"; "Page: 6h & 30m @6x"; "Ticket: 24h & 2h @3x";
     "Ticket: 3d & 6h @1x"]
  ∧ late = []
  ∧ map NewAlert.type hot
    = ["Page: 1h & 5m @14.4x"; "Page: 6h & 30m @6x"; "Ticket: 24h & 2h @3x";
       "Ticket: 3d & 6h @1x"; "Saturation (demo)"]
  ∧ early ≠ late ∧ early ≠ hot
  ∧ ¬ (∀ (st1 st2 : State) (now1 now2 : Z) (o1 o2 : Oracle),
         logs st1 = logs st2 → slo st1 = slo st2 → bakeSLI st1 = bakeSLI st2 →
         lockExpected st1 = lockExpected st2 →
         lockedSloTarget st1 = lockedSloTarget st2 →
         (newAlerts st1 now1 o1).1 = (newAlerts st2 now2 o2).1).
Proof.
  intros st early late hot.
  assert (He : map NewAlert.type early
    = ["Page: 1h & 5m @14.4x"; "Page: 6h & 30m @6x"; "Ticket: 24h & 2h @3x";
       "Ticket: 3d & 6h @1x"]) by (vm_compute; reflexivity).
  assert (Hl : late = []) by (vm_compute; reflexivity).
  assert (Hh : map NewAlert.type hot
    = ["Page: 1h & 5m @14.4x"; "Page: 6h & 30m @6x"; "Ticket: 24h & 2h @3x";
       "Ticket: 3d & 6h @1x"; "Saturation (demo)"]) by (vm_compute; reflexivity).
  assert (Hne : early ≠ late).
  { intros Heq. rewrite Heq, Hl in He. discriminate He. }
  split_and!; [exact He|exact Hl|exact Hh|exact Hne| |].
  - intros Heq. rewrite Heq, Hh in He. discriminate He.
  - intros Hall. apply Hne.
    exact (Hall st st 1000000%Z 900000000%Z (sample_oracle 1000000)
             (sample_oracle 900000000) eq_refl eq_refl eq_refl eq_refl eq_refl).
Qed.

(** C9, amended.  The candidates of a pass (which rules and demo checks
    fire, with which type, severity and message) are a function of the
    history, the targets, [bakeSLI], the SLI toggles, the tier, the CPU
    reading, the clock reading of the render and the eight clock readings the
    pass makes: two passes that agree on these produce the same candidates,
    whatever the alerts, score, badges, lock of the expected display, random
    numbers and identifiers are.  A pass reads the clock eight times, once for
    each window of each rule, and evaluates nothing twice. *)
Theorem candidates_determined (st1 st2 : State) (now : Z) (o1 o2 : Oracle) :
  agree st1 st2 →
  (∀ k, k < 8 → readings o1 k = readings o2 k) →
  (newAlerts st1 now o1).1 = (newAlerts st2 now o2).1
  ∧ (newAlerts st1 now o1).2 = tick_by 8 o1.
Proof.
  intros Hst Hclk. split; [by apply agree_newAlerts|].
  by rewrite newAlerts_run.
Qed.

Lemma candidates_determined_witness :
  let st1 := sample_outage 1000000 in
  let st2 :=
    set_lockExpected true
      (set_score 40 (set_alerts [sample_alert "a1" "Saturation (demo)"] st1)) in
  let o1 := sample_oracle 1000000 in
  let o2 :=
    {| clock := clock o1; ticks := 0; random := random o1; draws := 7;
       ids := λ k, "other" +:+ pretty k; issued := 3 |} in
  (newAlerts st1 1000000 o1).1 = (newAlerts st2 1000000 o2).1.
Proof.
  intros st1 st2 o1 o2.
  apply (candidates_determined st1 st2 1000000 o1 o2).
  - repeat split.
  - intros k _. reflexivity.
Defined.
